(** * A shallow embedding of the ASON text pipeline: normalizer, parser, decoder

    Sources: [src/normalizer.rs], [src/parser.rs], [src/serde/de.rs].

    The pipeline is a chain of pull iterators.  Every stage is a pure function
    of what remains of the lexer's output, so the state of the whole chain is
    modelled as the list of lexer items not yet consumed, and a stage's
    [next] is a function from that list to the emitted item and the rest.
    A [PeekableIter] only buffers what its upstream would return anyway, so
    [peek(k)] is [next] iterated [k+1] times without committing. *)

From Stdlib Require Import ZArith List String Bool Lia.
From Stdlib Require Import DecimalString.
Import ListNotations.
Open Scope string_scope.
Open Scope Z_scope.
Set Warnings "-register-all".

(** ** Rust's [Result] *)

Inductive Result (A E : Type) : Type :=
| Ok (a : A)
| Err (e : E).
Arguments Ok {A E} a.
Arguments Err {A E} e.

(** ** location.rs (modelled from the spec: "a position extended with
    [length] in bytes; two ranges may be joined to cover
    [start_of_a, end_of_b)") *)

Record Location := mkLocation {
  index : nat;
  line : nat;
  column : nat;
  length : nat
}.

(** Modelled from the spec: [Location::new_range]. *)
Definition new_range (i l c len : nat) : Location := mkLocation i l c len.

(** Modelled from the spec: [Location::from_range_pair] joins two ranges to
    cover [start_of_a, end_of_b). *)
Definition from_range_pair (a b : Location) : Location :=
  mkLocation (index a) (line a) (column a) (index b + length b - index a)%nat.

(** Modelled from the spec: [Location::get_position_by_range_start], the
    start position of a range (a range of length 0). *)
Definition get_position_by_range_start (a : Location) : Location :=
  mkLocation (index a) (line a) (column a) 0.

(** ** error.rs (the error type as the spec lists it) *)

Inductive AsonError :=
| Message (msg : string)
| MessageWithLocation (msg : string) (loc : Location)
| UnexpectedEndOfDocument (msg : string).

(** [format!("{}", v)] for the non-negative integers the messages print. *)
Definition fmt_num (v : Z) : string :=
  NilZero.string_of_uint (N.to_uint (Z.to_N v)).

(** The double-quote character, for messages that quote a value. *)
Definition dq : string := String (Ascii.ascii_of_nat 34) EmptyString.

(** ** token.rs *)

(** IEEE-754 values are kept as their bit patterns; [is_nan] and [neg] are
    the bit-level operations Rust's [f32]/[f64] perform. *)
Definition f32_is_nan (bits : Z) : bool :=
  (Z.land (Z.shiftr bits 23) 255 =? 255) && negb (Z.land bits (2 ^ 23 - 1) =? 0).
Definition f32_neg (bits : Z) : Z := Z.lxor bits (2 ^ 31).
Definition f64_is_nan (bits : Z) : bool :=
  (Z.land (Z.shiftr bits 52) 2047 =? 2047) && negb (Z.land bits (2 ^ 52 - 1) =? 0).
Definition f64_neg (bits : Z) : Z := Z.lxor bits (2 ^ 63).

Module NumberToken.
  (** Integer buckets store the bit pattern as the unsigned twin. *)
Inductive t :=
  | I8 (v : Z) | U8 (v : Z) | I16 (v : Z) | U16 (v : Z)
  | I32 (v : Z) | U32 (v : Z) | I64 (v : Z) | U64 (v : Z)
  | F32 (bits : Z) | F64 (bits : Z).
End NumberToken.

Record Date := mkDate { timestamp : Z; offset : Z }.

Inductive Comment :=
| LineComment (text : string)
| BlockComment (text : string).

Module Token.
Inductive t :=
  | Number (n : NumberToken.t)
  | Boolean (b : bool)
  | Char (c : Z)
  | String (s : string)
  | Date (d : Date)
  | HexByteData (bytes : list Z)
  | Identifier (name : string)
  | Variant (type_name member_name : string)
  | LeftBrace | RightBrace | LeftBracket | RightBracket
  | LeftParen | RightParen | Colon | Comma | Plus | Minus
  | NewLine
  | Comment (c : Comment).
End Token.

Definition number_token_eq_dec (a b : NumberToken.t) : {a = b} + {a <> b}.
Proof. decide equality; apply Z.eq_dec. Defined.

Definition token_eq_dec (a b : Token.t) : {a = b} + {a <> b}.
Proof.
  decide equality;
    first [ apply number_token_eq_dec | apply bool_dec | apply Z.eq_dec
          | apply string_dec | apply (list_eq_dec Z.eq_dec)
          | decide equality; first [apply Z.eq_dec | apply string_dec] ].
Defined.

Definition token_eqb (a b : Token.t) : bool :=
  if token_eq_dec a b then true else false.

Record TokenWithRange := mkTWR { token : Token.t; range : Location }.

(** An item of a token stream: [Result<TokenWithRange, AsonError>]. *)
Definition item := Result TokenWithRange AsonError.

(** ** normalizer.rs *)

(** [ClearTokenIter]: [clean] drops every comment token and passes every
    other item through.  It never produces an item of its own, so its lazy
    output is the filtered list. *)
Definition is_comment (r : item) : bool :=
  match r with
  | Ok (mkTWR (Token.Comment _) _) => true
  | _ => false
  end.

Definition clean (ts : list item) : list item :=
  filter (fun r => negb (is_comment r)) ts.

(** [while let Some(Ok(NewLine)) = peek(0) { next() }]: the range of the last
    newline consumed, and the rest of the stream. *)
Fixpoint consume_newlines (s : list item) : option Location * list item :=
  match s with
  | Ok (mkTWR Token.NewLine r) :: rest =>
      let '(last, rest') := consume_newlines rest in
      (match last with Some l => Some l | None => Some r end, rest')
  | _ => (None, s)
  end.

(** The signed widths and [format!("-{}", v).parse::<iN>()]: the text
    "-v" parses iff -v is at least iN::MIN ("-0" parses to 0). *)
Definition parse_neg (bits : Z) (v : Z) : option Z :=
  if v <=? 2 ^ (bits - 1) then Some (- v) else None.

(** [v as uN] for a signed value. *)
Definition as_unsigned (bits : Z) (v : Z) : Z := v mod 2 ^ bits.

(** The arms of [normalize], one per kind of token it reads first.  Each
    takes the range of that token ([start_range]) and the upstream behind
    it ([rest]) and returns the item emitted and the rest of the upstream. *)

(** [Token::NewLine]: a run of newlines, optionally followed by a comma and
    more newlines. *)
Definition normalize_newline (start_range : Location) (rest : list item)
  : option (item * list item) :=
  (* consume continuous newlines *)
  let '(last, rest1) := consume_newlines rest in
  let end_range := match last with Some l => l | None => start_range end in
  match rest1 with
  | Ok (mkTWR Token.Comma comma_range) :: rest2 =>
      (* consume comma, then trailing continuous newlines *)
      let '(_, rest3) := consume_newlines rest2 in
      Some (Ok (mkTWR Token.Comma (from_range_pair comma_range comma_range)), rest3)
  | _ =>
      Some (Ok (mkTWR Token.NewLine (from_range_pair start_range end_range)), rest1)
  end.

(** [Token::Comma]: consume trailing continuous newlines. *)
Definition normalize_comma (start_range : Location) (rest : list item)
  : option (item * list item) :=
  let '(_, rest1) := consume_newlines rest in
  Some (Ok (mkTWR Token.Comma (from_range_pair start_range start_range)), rest1).

(** [Token::Plus]. *)
Definition normalize_plus (start_range : Location) (rest : list item)
  : option (item * list item) :=
  match rest with
  | Ok (mkTWR (Token.Number num) current_range) :: rest1 =>
      let joined := from_range_pair start_range current_range in
      let overflow name v :=
        Some (Err (MessageWithLocation
                     ("The " ++ name ++ " number " ++ fmt_num v ++ " is overflowed.")
                     joined), rest) in
      let nan := Some (Err (MessageWithLocation
                              "The plus sign cannot be applied to NaN." joined), rest) in
      (* consume the number token, combine the two ranges *)
      let pass := Some (Ok (mkTWR (Token.Number num) joined), rest1) in
      match num with
      | NumberToken.F32 f => if f32_is_nan f then nan else pass
      | NumberToken.F64 f => if f64_is_nan f then nan else pass
      | NumberToken.I8 v => if 127 <? v then overflow "i8 " v else pass
      | NumberToken.I16 v => if 32767 <? v then overflow "i16" v else pass
      | NumberToken.I32 v => if 2147483647 <? v then overflow "i32" v else pass
      | NumberToken.I64 v => if 9223372036854775807 <? v then overflow "i64" v else pass
      | _ => pass
      end
  | Ok (mkTWR _ current_range) :: _ =>
      Some (Err (MessageWithLocation "The plus sign can only be applied to numbers."
                   (from_range_pair start_range current_range)), rest)
  | Err e :: _ => Some (Err e, rest)
  | [] =>
      Some (Err (UnexpectedEndOfDocument
                   "Missing the number that follow the plus sign."), rest)
  end.

(** [Token::Minus].  The signed integer arms consume the number with
    [iter.next()], a nested call of [normalize] whose item is dropped;
    [after_next] is the upstream that call leaves. *)
Definition normalize_minus (start_range : Location) (rest after_next : list item)
  : option (item * list item) :=
  match rest with
  | Ok (mkTWR (Token.Number num) current_range) :: rest1 =>
      let joined := from_range_pair start_range current_range in
      let nan := Some (Err (MessageWithLocation
                              "The minus sign cannot be applied to NaN." joined), rest) in
      let negate bits name suffix mk v :=
        match parse_neg bits v with
        | Some nv =>
            Some (Ok (mkTWR (Token.Number (mk (as_unsigned bits nv))) joined), after_next)
        | None =>
            Some (Err (MessageWithLocation
                         ("Can not convert " ++ dq ++ fmt_num v ++ dq ++ " to negative "
                          ++ name ++ suffix) joined), rest)
        end in
      match num with
      | NumberToken.F32 v =>
          if f32_is_nan v then nan
          else Some (Ok (mkTWR (Token.Number (NumberToken.F32 (f32_neg v))) joined), rest1)
      | NumberToken.F64 v =>
          if f64_is_nan v then nan
          else Some (Ok (mkTWR (Token.Number (NumberToken.F64 (f64_neg v))) joined), rest1)
      | NumberToken.I8 v => negate 8 "i8" "" NumberToken.I8 v
      | NumberToken.I16 v => negate 16 "i16" "." NumberToken.I16 v
      | NumberToken.I32 v => negate 32 "i32" "." NumberToken.I32 v
      | NumberToken.I64 v => negate 64 "i64" "." NumberToken.I64 v
      | NumberToken.U8 _ | NumberToken.U16 _ | NumberToken.U32 _ | NumberToken.U64 _ =>
          Some (Err (MessageWithLocation
                       "The minus sign cannot be applied to unsigned numbers." joined), rest)
      end
  | Ok (mkTWR _ current_range) :: _ =>
      Some (Err (MessageWithLocation "The minus sign can only be applied to numbers."
                   (from_range_pair start_range current_range)), rest)
  | Err e :: _ => Some (Err e, rest)
  | [] =>
      Some (Err (UnexpectedEndOfDocument
                   "Missing the number that follow the minus sign."), rest)
  end.

(** Any other token: the bare signed overflow check, else pass through. *)
Definition normalize_other (result : item) (token : Token.t) (start_range : Location)
  (rest : list item) : option (item * list item) :=
  let overflow name v :=
    Some (Err (MessageWithLocation
                 ("The " ++ name ++ " number " ++ fmt_num v ++ " is overflowed.")
                 start_range), rest) in
  match token with
  | Token.Number (NumberToken.I8 v) => if 127 <? v then overflow "i8" v else Some (result, rest)
  | Token.Number (NumberToken.I16 v) =>
      if 32767 <? v then overflow "i16" v else Some (result, rest)
  | Token.Number (NumberToken.I32 v) =>
      if 2147483647 <? v then overflow "i32" v else Some (result, rest)
  | Token.Number (NumberToken.I64 v) =>
      if 9223372036854775807 <? v then overflow "i64" v else Some (result, rest)
  | _ => Some (result, rest)
  end.

(** One call of [normalize] on the (comment-free) upstream [s]: the item
    emitted and the rest of the upstream, or [None] at the end. *)
Fixpoint normalize (s : list item) : option (item * list item) :=
  match s with
  | [] => None
  | Err e :: rest => Some (Err e, rest)
  | (Ok (mkTWR tok start_range) as result) :: rest =>
    match tok with
    | Token.NewLine => normalize_newline start_range rest
    | Token.Comma => normalize_comma start_range rest
    | Token.Plus => normalize_plus start_range rest
    | Token.Minus =>
        normalize_minus start_range rest
          (match normalize rest with Some (_, rest') => rest' | None => rest end)
    | _ => normalize_other result tok start_range rest
    end
  end.

(** [TrimmedTokenIter::new]: drop a leading newline of the document. *)
Definition trim_new (s : list item) : list item :=
  match normalize s with
  | Some (Ok (mkTWR Token.NewLine _), s') => s'
  | _ => s
  end.

(** [trim]: drop the newline that is the last item of the document. *)
Definition trim (s : list item) : option (item * list item) :=
  match normalize s with
  | Some ((Ok (mkTWR Token.NewLine _)) as r, s') =>
      match normalize s' with
      | None => None
      | Some _ => Some (r, s')
      end
  | Some (r, s') => Some (r, s')
  | None => None
  end.

(** [PeekableIter::peek(k)] over the trimmed stream. *)
Fixpoint peek_item (k : nat) (s : list item) : option item :=
  match trim s with
  | None => None
  | Some (x, s') =>
      match k with
      | O => Some x
      | S k' => peek_item k' s'
      end
  end.

(** ** ast.rs (modelled from the spec: the [Node] value tree of section 3) *)

Module Number.
  (** Integers are stored as their signed values. *)
Inductive t :=
  | I8 (v : Z) | U8 (v : Z) | I16 (v : Z) | U16 (v : Z)
  | I32 (v : Z) | U32 (v : Z) | I64 (v : Z) | U64 (v : Z)
  | F32 (bits : Z) | F64 (bits : Z).
End Number.

Module AsonNode.
  (** A [KeyValuePair] is a pair (key, value), a [NameValuePair] a pair
      (name, value). *)
Inductive t :=
  | Number (n : Number.t)
  | Boolean (b : bool)
  | Char (c : Z)
  | String (s : string)
  | DateTime (d : Date)
  | Variant (v : variant)
  | HexByteData (bytes : list Z)
  | List (items : list t)
  | Map (nvps : list (t * t))
  | Object (kvps : list (string * t))
  | Tuple (items : list t)
  with variant :=
  | MkVariant (type_name member_name : string) (value : variant_value)
  with variant_value :=
  | PayloadNone
  | PayloadValue (v : t)
  | PayloadTuple (items : list t)
  | PayloadObject (kvps : list (string * t)).
End AsonNode.

(** [v as iN] for an unsigned bit pattern. *)
Definition as_signed (bits : Z) (v : Z) : Z :=
  if v <? 2 ^ (bits - 1) then v else v - 2 ^ bits.

Definition convert_number_token (n : NumberToken.t) : AsonNode.t :=
  AsonNode.Number
    match n with
    | NumberToken.I8 v => Number.I8 (as_signed 8 v)
    | NumberToken.U8 v => Number.U8 v
    | NumberToken.I16 v => Number.I16 (as_signed 16 v)
    | NumberToken.U16 v => Number.U16 v
    | NumberToken.I32 v => Number.I32 (as_signed 32 v)
    | NumberToken.U32 v => Number.U32 v
    | NumberToken.I64 v => Number.I64 (as_signed 64 v)
    | NumberToken.U64 v => Number.U64 v
    | NumberToken.F32 v => Number.F32 v
    | NumberToken.F64 v => Number.F64 v
    end.

(** ** The parser's and decoder's state and their token primitives *)

(** [upstream] is what remains of the comment-free lexer output behind the
    trimmed stream; [last_range] is the range of the last token taken. *)
Record PState := mkPState { upstream : list item; last_range : Location }.

(** The outcome of a method of [&mut self] returning [Result]: a value and the
    new state, an error and the state the method left behind, a Rust panic ([unwrap] on [None], [unreachable!]),
    or [NoFuel] when the recursion bound of the model is exhausted. *)
Inductive Outcome (A : Type) :=
| Done (a : A) (st : PState)
| Fail (e : AsonError) (st : PState)
| Panic
| NoFuel.
Arguments Done {A} a st.
Arguments Fail {A} e st.
Arguments Panic {A}.
Arguments NoFuel {A}.

Definition PM (A : Type) := PState -> Outcome A.

Definition ret {A} (a : A) : PM A := fun st => Done a st.
Definition fail {A} (e : AsonError) : PM A := fun st => Fail e st.
Definition panic {A} : PM A := fun _ => Panic.
Definition no_fuel {A} : PM A := fun _ => NoFuel.

(** [?]: run [m], and pass its value on or stop at its error. *)
Definition bind {A B} (m : PM A) (k : A -> PM B) : PM B :=
  fun st =>
    match m st with
    | Done a st' => k a st'
    | Fail e st' => Fail e st'
    | Panic => Panic
    | NoFuel => NoFuel
    end.

Notation "x <- m ;; k" := (bind m (fun x => k))
  (at level 61, m at next level, right associativity).
Notation "' p <- m ;; k" := (bind m (fun x => match x with p => k end))
  (at level 61, p pattern, m at next level, right associativity).

(** [let v = m;]: run [m] and keep its [Result] without stopping. *)
Definition try_result {A} (m : PM A) : PM (Result A AsonError) :=
  fun st =>
    match m st with
    | Done a st' => Done (Ok a) st'
    | Fail e st' => Done (Err e) st'
    | Panic => Panic
    | NoFuel => NoFuel
    end.

(** The error of an outcome, if it is one. *)
Definition outcome_error {A} (o : Outcome A) : option AsonError :=
  match o with
  | Fail e _ => Some e
  | _ => None
  end.

Definition get_last_range : PM Location := fun st => Done (last_range st) st.

Definition next_token : PM (option Token.t) :=
  fun st =>
    match trim (upstream st) with
    | Some (Ok (mkTWR t r), s') => Done (Some t) (mkPState s' r)
    | Some (Err e, s') => Fail e (mkPState s' (last_range st))
    | None => Done None st
    end.

Definition peek_range (offset : nat) : PM (option Location) :=
  fun st =>
    match peek_item offset (upstream st) with
    | Some (Ok tw) => Done (Some (range tw)) st
    | Some (Err e) => Fail e st
    | None => Done None st
    end.

Definition peek_token (offset : nat) : PM (option Token.t) :=
  fun st =>
    match peek_item offset (upstream st) with
    | Some (Ok tw) => Done (Some (token tw)) st
    | Some (Err e) => Fail e st
    | None => Done None st
    end.

Definition expect_token (offset : nat) (expected_token : Token.t) : PM bool :=
  t <- peek_token offset ;;
  ret match t with
      | Some tok => token_eqb tok expected_token
      | None => false
      end.

(** [None]: not found; [Some false]: found; [Some true]: found after a
    new-line. *)
Definition expect_token_ignore_newline (offset : nat) (expected_token : Token.t)
  : PM (option bool) :=
  b <- expect_token offset expected_token ;;
  if b then ret (Some false)
  else
    b1 <- expect_token offset Token.NewLine ;;
    if b1 then
      b2 <- expect_token (S offset) expected_token ;;
      if b2 then ret (Some true) else ret None
    else ret None.

Definition consume_new_line_if_exist : PM bool :=
  t <- peek_token 0 ;;
  match t with
  | Some Token.NewLine => _ <- next_token ;; ret true
  | _ => ret false
  end.

Definition consume_new_line_or_comma_if_exist : PM bool :=
  t <- peek_token 0 ;;
  match t with
  | Some (Token.NewLine | Token.Comma) => _ <- next_token ;; ret true
  | _ => ret false
  end.

Definition consume_token (expected_token : Token.t) (token_description : string)
  : PM unit :=
  t <- next_token ;;
  match t with
  | Some tok =>
      if token_eqb tok expected_token then ret tt
      else
        lr <- get_last_range ;;
        fail (MessageWithLocation ("Expect token: " ++ token_description ++ ".")
                (get_position_by_range_start lr))
  | None => fail (UnexpectedEndOfDocument ("Expect token: " ++ token_description ++ "."))
  end.

Definition consume_right_paren : PM unit := consume_token Token.RightParen "right parenthese".
Definition consume_right_bracket : PM unit := consume_token Token.RightBracket "right bracket".
Definition consume_right_brace : PM unit := consume_token Token.RightBrace "right brace".
Definition consume_colon : PM unit := consume_token Token.Colon "colon sign".

(** ** parser.rs *)

(** The local [enum ListType] of [parse_list]. *)
Inductive ListType := Unknown | List | Map.

Definition list_type_eqb (a b : ListType) : bool :=
  match a, b with
  | Unknown, Unknown | List, List | Map, Map => true
  | _, _ => false
  end.

(** The recursive descent.  Each [while let Some(token) = self.peek_token(0)?]
    loop is its own function ([tuple_items], [key_value_items],
    [list_items]), and the loop body up to the separator check is
    [key_value_item] and [list_item] where it is more than one call of
    [parse_node].  Every call takes one unit of [fuel]; the top level gives
    more fuel than the number of tokens can use up. *)
Fixpoint parse_node (fuel : nat) : PM AsonNode.t :=
  match fuel with
  | O => no_fuel
  | S f =>
    t <- peek_token 0 ;;
    match t with
    | Some current_token =>
        match current_token with
        | Token.Number n =>
            let v := convert_number_token n in
            _ <- next_token ;; ret v
        | Token.Boolean b => _ <- next_token ;; ret (AsonNode.Boolean b)
        | Token.Char c => _ <- next_token ;; ret (AsonNode.Char c)
        | Token.String s => _ <- next_token ;; ret (AsonNode.String s)
        | Token.Date d => _ <- next_token ;; ret (AsonNode.DateTime d)
        | Token.Variant type_name member_name =>
            t1 <- peek_token 1 ;;
            match t1 with
            | Some Token.LeftParen => parse_tuple_variant f
            | Some Token.LeftBrace => parse_struct_variant f
            | _ =>
                _ <- next_token ;;
                ret (AsonNode.Variant
                       (AsonNode.MkVariant type_name member_name AsonNode.PayloadNone))
            end
        | Token.HexByteData b => _ <- next_token ;; ret (AsonNode.HexByteData b)
        | Token.LeftBrace => parse_object f
        | Token.LeftBracket => parse_list f
        | Token.LeftParen => parse_tuple f
        | _ =>
            r <- peek_range 0 ;;
            match r with
            | Some r => fail (MessageWithLocation "Unexpected token."
                                (get_position_by_range_start r))
            | None => panic
            end
        end
    | None => fail (UnexpectedEndOfDocument "Incomplete document.")
    end
  end

with parse_tuple_variant (fuel : nat) : PM AsonNode.t :=
  match fuel with
  | O => no_fuel
  | S f =>
    t <- next_token ;;
    match t with
    | Some (Token.Variant type_name member_name) =>
        _ <- next_token ;; (* consume '(' *)
        _ <- consume_new_line_if_exist ;;
        items <- tuple_items f [] ;;
        _ <- consume_right_paren ;;
        match items with
        | [] =>
            lr <- get_last_range ;;
            fail (MessageWithLocation "The value of tuple style variant can not be empty."
                    (get_position_by_range_start lr))
        | [v] =>
            ret (AsonNode.Variant
                   (AsonNode.MkVariant type_name member_name (AsonNode.PayloadValue v)))
        | _ =>
            ret (AsonNode.Variant
                   (AsonNode.MkVariant type_name member_name (AsonNode.PayloadTuple items)))
        end
    | _ => panic (* unreachable!() *)
    end
  end

(** The element loop of [parse_tuple_variant] and [parse_tuple]. *)
with tuple_items (fuel : nat) (items : list AsonNode.t) : PM (list AsonNode.t) :=
  match fuel with
  | O => no_fuel
  | S f =>
    t <- peek_token 0 ;;
    match t with
    | None | Some Token.RightParen => ret items
    | Some _ =>
        value <- parse_node f ;;
        found_sep <- consume_new_line_or_comma_if_exist ;;
        if found_sep then tuple_items f (items ++ [value])%list
        else ret (items ++ [value])%list
    end
  end

with parse_struct_variant (fuel : nat) : PM AsonNode.t :=
  match fuel with
  | O => no_fuel
  | S f =>
    t <- next_token ;;
    match t with
    | Some (Token.Variant type_name member_name) =>
        kvps <- parse_key_value_pairs f ;;
        ret (AsonNode.Variant
               (AsonNode.MkVariant type_name member_name (AsonNode.PayloadObject kvps)))
    | _ => panic (* unreachable!() *)
    end
  end

with parse_key_value_pairs (fuel : nat) : PM (list (string * AsonNode.t)) :=
  match fuel with
  | O => no_fuel
  | S f =>
    _ <- next_token ;; (* consume '{' *)
    _ <- consume_new_line_if_exist ;;
    kvps <- key_value_items f [] ;;
    _ <- consume_right_brace ;;
    ret kvps
  end

(** The element loop of [parse_key_value_pairs]. *)
with key_value_items (fuel : nat) (kvps : list (string * AsonNode.t))
  : PM (list (string * AsonNode.t)) :=
  match fuel with
  | O => no_fuel
  | S f =>
    t <- peek_token 0 ;;
    match t with
    | None | Some Token.RightBrace => ret kvps
    | Some _ =>
        kvp <- key_value_item f ;;
        found_sep <- consume_new_line_or_comma_if_exist ;;
        if found_sep then key_value_items f (kvps ++ [kvp])%list
        else ret (kvps ++ [kvp])%list
    end
  end

(** The body of that loop: [name], optional new-line, [:], optional
    new-line, value. *)
with key_value_item (fuel : nat) : PM (string * AsonNode.t) :=
  match fuel with
  | O => no_fuel
  | S f =>
    t <- next_token ;;
    match t with
    | Some (Token.Identifier name) =>
        _ <- consume_new_line_if_exist ;;
        _ <- consume_colon ;;
        _ <- consume_new_line_if_exist ;;
        value <- parse_node f ;;
        ret (name, value)
    | Some _ =>
        lr <- get_last_range ;;
        fail (MessageWithLocation "Expect a key name for object."
                (get_position_by_range_start lr))
    | None => fail (UnexpectedEndOfDocument "Expect a key name for object.")
    end
  end

with parse_object (fuel : nat) : PM AsonNode.t :=
  match fuel with
  | O => no_fuel
  | S f => kvps <- parse_key_value_pairs f ;; ret (AsonNode.Object kvps)
  end

with parse_list (fuel : nat) : PM AsonNode.t :=
  match fuel with
  | O => no_fuel
  | S f =>
    _ <- next_token ;; (* consume '[' *)
    _ <- consume_new_line_if_exist ;;
    '(list_type, items, nvps) <- list_items f Unknown [] [] ;;
    _ <- consume_right_bracket ;;
    if list_type_eqb list_type List then ret (AsonNode.List items)
    else ret (AsonNode.Map nvps)
  end

(** The element loop of [parse_list], threading [list_type], [items] and
    [nvps]. *)
with list_items (fuel : nat) (list_type : ListType) (items : list AsonNode.t)
  (nvps : list (AsonNode.t * AsonNode.t))
  : PM (ListType * list AsonNode.t * list (AsonNode.t * AsonNode.t)) :=
  match fuel with
  | O => no_fuel
  | S f =>
    t <- peek_token 0 ;;
    match t with
    | None | Some Token.RightBracket => ret (list_type, items, nvps)
    | Some _ =>
        '(list_type', items', nvps') <- list_item f list_type items nvps ;;
        found_sep <- consume_new_line_or_comma_if_exist ;;
        if found_sep then list_items f list_type' items' nvps'
        else ret (list_type', items', nvps')
    end
  end

(** The body of that loop: the item, the one-time List/Map decision, and
    for a map the [:] and the value. *)
with list_item (fuel : nat) (list_type : ListType) (items : list AsonNode.t)
  (nvps : list (AsonNode.t * AsonNode.t))
  : PM (ListType * list AsonNode.t * list (AsonNode.t * AsonNode.t)) :=
  match fuel with
  | O => no_fuel
  | S f =>
    item <- parse_node f ;;
    list_type' <-
      (if list_type_eqb list_type Unknown then
         c <- expect_token_ignore_newline 0 Token.Colon ;;
         ret (match c with Some _ => Map | None => List end)
       else ret list_type) ;;
    if list_type_eqb list_type' List then ret (list_type', items ++ [item], nvps)%list
    else
      _ <- consume_new_line_if_exist ;;
      _ <- consume_colon ;;
      _ <- consume_new_line_if_exist ;;
      value <- parse_node f ;;
      ret (list_type', items, nvps ++ [(item, value)])%list
  end

with parse_tuple (fuel : nat) : PM AsonNode.t :=
  match fuel with
  | O => no_fuel
  | S f =>
    _ <- next_token ;; (* consume '(' *)
    _ <- consume_new_line_if_exist ;;
    items <- tuple_items f [] ;;
    _ <- consume_right_paren ;;
    match items with
    | [] =>
        lr <- get_last_range ;;
        fail (MessageWithLocation "Tuple can not be empty."
                (get_position_by_range_start lr))
    | _ => ret (AsonNode.Tuple items)
    end
  end.

(** [parse_from_char_stream], from the lexer's output on. *)
Definition init_state (ts : list item) : PState :=
  mkPState (trim_new (clean ts)) (new_range 0 0 0 0).

Definition parse_fuel (ts : list item) : nat := (4 * List.length ts + 4)%nat.

Definition parse_from (ts : list item) : Outcome AsonNode.t :=
  (root <- parse_node (parse_fuel ts) ;;
   t <- next_token ;;
   match t with
   | Some _ =>
       lr <- get_last_range ;;
       fail (MessageWithLocation "Document has more than one node."
               (get_position_by_range_start lr))
   | None => ret root
   end) (init_state ts).

(** ** serde/de.rs

    The [Deserializer] uses the same stream, state and token primitives as
    the parser ([next_token], [peek_token], [peek_range], [expect_token],
    [get_last_range] are the same code in both files).  A [Visitor] is
    represented by what it builds: the value decoder of the inner type. *)

Definition de_consume_token (expected_token : Token.t) (token_description : string)
  : PM unit :=
  t <- next_token ;;
  match t with
  | Some tok =>
      if token_eqb tok expected_token then ret tt
      else
        lr <- get_last_range ;;
        fail (MessageWithLocation ("Expect token: " ++ token_description ++ ".")
                (get_position_by_range_start lr))
  | None =>
      fail (UnexpectedEndOfDocument
              ("Expect token: " ++ dq ++ token_description ++ dq ++ "."))
  end.

Definition de_consume_right_paren : PM unit :=
  de_consume_token Token.RightParen ("close parenthese " ++ dq ++ ")" ++ dq).

Definition deserialize_bool : PM bool :=
  t <- next_token ;;
  match t with
  | Some (Token.Boolean v) => ret v
  | Some _ =>
      lr <- get_last_range ;;
      fail (MessageWithLocation ("Expect a " ++ dq ++ "Boolean" ++ dq ++ " value.")
              (get_position_by_range_start lr))
  | None => fail (UnexpectedEndOfDocument ("Expect a " ++ dq ++ "Boolean" ++ dq ++ " value."))
  end.

(** [deserialize_i32] with the visitor of [i32]: [visit_i32(v as i32)]. *)
Definition deserialize_i32 : PM Z :=
  t <- next_token ;;
  match t with
  | Some (Token.Number (NumberToken.I32 v)) => ret (as_signed 32 v)
  | Some _ =>
      lr <- get_last_range ;;
      fail (MessageWithLocation ("Expect an " ++ dq ++ "i32" ++ dq ++ " value.")
              (get_position_by_range_start lr))
  | None => fail (UnexpectedEndOfDocument ("Expect an " ++ dq ++ "i32" ++ dq ++ " value."))
  end.

(** [deserialize_option] with the visitor of [Option<A>]: [visit_none] is
    [None], [visit_some] decodes the inner value with [inner]. *)
Definition deserialize_option {A} (inner : PM A) : PM (option A) :=
  t <- next_token ;;
  match t with
  | Some (Token.Variant type_name member_name) =>
      if String.eqb type_name "Option" then
        is_none <-
          (if String.eqb member_name "None" then
             p <- expect_token 0 Token.LeftParen ;; ret (negb p)
           else ret false) ;;
        if is_none then ret None
        else
          is_some <-
            (if String.eqb member_name "Some" then expect_token 0 Token.LeftParen
             else ret false) ;;
          if is_some then
            _ <- next_token ;; (* consume '(' *)
            v <- try_result inner ;;
            _ <- de_consume_right_paren ;;
            match v with
            | Ok a => ret (Some a)
            | Err e => fail e
            end
          else
            r <- peek_range 0 ;;
            match r with
            | Some r =>
                fail (MessageWithLocation
                        ("Invalid member of variant " ++ dq ++ "Option" ++ dq ++ ".") r)
            | None => panic (* [self.peek_range(0)?.unwrap()] *)
            end
      else
        lr <- get_last_range ;;
        fail (MessageWithLocation
                ("Expect the " ++ dq ++ "Option" ++ dq ++ " type of variant.") lr)
  | Some _ =>
      lr <- get_last_range ;;
      fail (MessageWithLocation
              ("Expect the " ++ dq ++ "Option" ++ dq ++ " type of variant.")
              (get_position_by_range_start lr))
  | None =>
      fail (UnexpectedEndOfDocument
              ("Expect the " ++ dq ++ "Option" ++ dq ++ " type of variant."))
  end.

(** [from_char_stream], from the lexer's output on, for a type whose
    [T::deserialize] is [deserialize]. *)
Definition from_char_stream {T} (deserialize : PM T) (ts : list item) : Outcome T :=
  (value <- deserialize ;;
   r <- peek_range 0 ;;
   match r with
   | Some r =>
       fail (MessageWithLocation "Document has more than one node."
               (get_position_by_range_start r))
   | None => ret value
   end) (init_state ts).

(** ** Lexer outputs of the documents the spec's scenarios name

    Modelled from the spec: lexer.rs is not in src, so the items the lexer
    produces for a scenario's text are written out here as its section 4.2
    describes them (one token per literal, keyword, identifier, variant path
    and punctuation mark, with its byte range on line 0). *)

Definition tok_at (t : Token.t) (start len : nat) : item :=
  Ok (mkTWR t (mkLocation start 0 start len)).

(** Modelled from the spec: the lexer's items for "-1_u8". *)
Definition lexed_minus_1_u8 : list item :=
  [tok_at Token.Minus 0 1; tok_at (Token.Number (NumberToken.U8 1)) 1 4].

(** Modelled from the spec: the lexer's items for "-0_i8". *)
Definition lexed_minus_0_i8 : list item :=
  [tok_at Token.Minus 0 1; tok_at (Token.Number (NumberToken.I8 0)) 1 4].

(** Modelled from the spec: the lexer's items for "-128_i8" and "-129_i8". *)
Definition lexed_minus_128_i8 : list item :=
  [tok_at Token.Minus 0 1; tok_at (Token.Number (NumberToken.I8 128)) 1 6].
Definition lexed_minus_129_i8 : list item :=
  [tok_at Token.Minus 0 1; tok_at (Token.Number (NumberToken.I8 129)) 1 6].

(** Modelled from the spec: the lexer's items for "true false". *)
Definition lexed_true_false : list item :=
  [tok_at (Token.Boolean true) 0 4; tok_at (Token.Boolean false) 5 5].

(** Modelled from the spec: the lexer's items for {id:123 name:"foo"}. *)
Definition lexed_object_missing_separator : list item :=
  [tok_at Token.LeftBrace 0 1; tok_at (Token.Identifier "id") 1 2;
   tok_at Token.Colon 3 1; tok_at (Token.Number (NumberToken.I32 123)) 4 3;
   tok_at (Token.Identifier "name") 8 4; tok_at Token.Colon 12 1;
   tok_at (Token.String "foo") 13 5; tok_at Token.RightBrace 18 1].

(** Modelled from the spec: the lexer's items for "()" and "Type::Member()". *)
Definition lexed_empty_tuple : list item :=
  [tok_at Token.LeftParen 0 1; tok_at Token.RightParen 1 1].
Definition lexed_empty_variant_payload : list item :=
  [tok_at (Token.Variant "Type" "Member") 0 12; tok_at Token.LeftParen 12 1;
   tok_at Token.RightParen 13 1].

(** Modelled from the spec: the lexer's items for "(1, 2)". *)
Definition lexed_pair_tuple : list item :=
  [tok_at Token.LeftParen 0 1; tok_at (Token.Number (NumberToken.I32 1)) 1 1;
   tok_at Token.Comma 2 1; tok_at (Token.Number (NumberToken.I32 2)) 4 1;
   tok_at Token.RightParen 5 1].

(** Modelled from the spec: the lexer's items for "[]" and "[,]". *)
Definition lexed_empty_brackets : list item :=
  [tok_at Token.LeftBracket 0 1; tok_at Token.RightBracket 1 1].
Definition lexed_comma_in_brackets : list item :=
  [tok_at Token.LeftBracket 0 1; tok_at Token.Comma 1 1; tok_at Token.RightBracket 2 1].

(** Modelled from the spec: the lexer's items for "[1: 2, 3: 4]" and
    "[1, 2]". *)
Definition lexed_map_1_2_3_4 : list item :=
  [tok_at Token.LeftBracket 0 1; tok_at (Token.Number (NumberToken.I32 1)) 1 1;
   tok_at Token.Colon 2 1; tok_at (Token.Number (NumberToken.I32 2)) 4 1;
   tok_at Token.Comma 5 1; tok_at (Token.Number (NumberToken.I32 3)) 7 1;
   tok_at Token.Colon 8 1; tok_at (Token.Number (NumberToken.I32 4)) 10 1;
   tok_at Token.RightBracket 11 1].

(** Modelled from the spec: the lexer's items for "Option::Some(123)",
    "Option::None" and "Option::Foo". *)
Definition lexed_option_some_123 : list item :=
  [tok_at (Token.Variant "Option" "Some") 0 12; tok_at Token.LeftParen 12 1;
   tok_at (Token.Number (NumberToken.I32 123)) 13 3; tok_at Token.RightParen 16 1].
Definition lexed_option_none : list item :=
  [tok_at (Token.Variant "Option" "None") 0 12].
Definition lexed_option_foo : list item :=
  [tok_at (Token.Variant "Option" "Foo") 0 11].

(** ** Helpers for the statements *)

(** The token at the head of a stream. *)
Definition head_token (s : list item) : option Token.t :=
  match s with
  | Ok (mkTWR t _) :: _ => Some t
  | _ => None
  end.

Definition succeeds {A} (o : Outcome A) : bool :=
  match o with
  | Done _ _ => true
  | _ => false
  end.

(** The signed widths, for statements over all four of them. *)
Inductive SignedWidth := W8 | W16 | W32 | W64.

Definition signed_bits (w : SignedWidth) : Z :=
  match w with W8 => 8 | W16 => 16 | W32 => 32 | W64 => 64 end.
Definition signed_token (w : SignedWidth) (v : Z) : NumberToken.t :=
  match w with
  | W8 => NumberToken.I8 v | W16 => NumberToken.I16 v
  | W32 => NumberToken.I32 v | W64 => NumberToken.I64 v
  end.
Definition signed_number (w : SignedWidth) (v : Z) : Number.t :=
  match w with
  | W8 => Number.I8 v | W16 => Number.I16 v | W32 => Number.I32 v | W64 => Number.I64 v
  end.
Definition signed_name (w : SignedWidth) : string :=
  match w with W8 => "i8" | W16 => "i16" | W32 => "i32" | W64 => "i64" end.
(** The i8 message of [normalize] has no final period, the others have one. *)
Definition negative_suffix (w : SignedWidth) : string :=
  match w with W8 => EmptyString | _ => "." end.
Definition signed_max (w : SignedWidth) : Z := 2 ^ (signed_bits w - 1) - 1.
Definition signed_min (w : SignedWidth) : Z := - 2 ^ (signed_bits w - 1).

(** The message of the [Err] of [format!("-{}", v).parse::<iN>()]. *)
Definition cannot_convert_message (w : SignedWidth) (n : Z) : string :=
  "Can not convert " ++ dq ++ fmt_num n ++ dq ++ " to negative " ++ signed_name w
  ++ negative_suffix w.

(** The unsigned widths. *)
Inductive UnsignedWidth := UW8 | UW16 | UW32 | UW64.

Definition unsigned_token (w : UnsignedWidth) (v : Z) : NumberToken.t :=
  match w with
  | UW8 => NumberToken.U8 v | UW16 => NumberToken.U16 v
  | UW32 => NumberToken.U32 v | UW64 => NumberToken.U64 v
  end.

(** The value of a finished run, if it succeeded. *)
Definition outcome_value {A} (o : Outcome A) : option A :=
  match o with Done a _ => Some a | _ => None end.

(** A run of newline items with the given ranges. *)
Definition newline_items (rs : list Location) : list item :=
  map (fun r => Ok (mkTWR Token.NewLine r)) rs.

(** The token [tw] is neither a separator nor the closing token. *)
Definition no_separator (tw : TokenWithRange) (closer : Token.t) : Prop :=
  token tw <> Token.NewLine /\ token tw <> Token.Comma /\ token tw <> closer.

(** What a [list_items] loop that has already decided the container's kind
    returns: the same kind, and for a list only more items, for a map only
    more pairs. *)
Definition list_shape (lt : ListType) (items : list AsonNode.t)
  (nvps : list (AsonNode.t * AsonNode.t))
  (r : ListType * list AsonNode.t * list (AsonNode.t * AsonNode.t)) : Prop :=
  fst (fst r) = lt /\
  (lt = List -> snd r = nvps /\ exists more, snd (fst r) = (items ++ more)%list) /\
  (lt = Map -> snd (fst r) = items /\ exists more, snd r = (nvps ++ more)%list).

(** The shape of the nodes the parser builds: no tuple is empty, and a
    variant's tuple payload has at least two items; everywhere in the tree. *)
Fixpoint node_ok (n : AsonNode.t) : bool :=
  match n with
  | AsonNode.Tuple items =>
      match items with [] => false | _ => forallb node_ok items end
  | AsonNode.Variant (AsonNode.MkVariant _ _ v) =>
      match v with
      | AsonNode.PayloadNone => true
      | AsonNode.PayloadValue x => node_ok x
      | AsonNode.PayloadTuple items => (2 <=? List.length items)%nat && forallb node_ok items
      | AsonNode.PayloadObject kvs => forallb (fun kv => node_ok (snd kv)) kvs
      end
  | AsonNode.List items => forallb node_ok items
  | AsonNode.Map nvps => forallb (fun p => node_ok (fst p) && node_ok (snd p)) nvps
  | AsonNode.Object kvs => forallb (fun kv => node_ok (snd kv)) kvs
  | _ => true
  end.

Definition kv_ok (kv : string * AsonNode.t) : bool := node_ok (snd kv).
Definition pair_ok (p : AsonNode.t * AsonNode.t) : bool := node_ok (fst p) && node_ok (snd p).

(** [post Q m]: every successful run of [m] returns a value satisfying [Q]. *)
Inductive post {A} (Q : A -> Prop) (m : PM A) : Prop :=
| post_intro : (forall st a st', m st = Done a st' -> Q a) -> post Q m.

(** The invariant of the recursive descent at a given fuel. *)
Definition parser_ok (f : nat) : Prop :=
  post (fun n => node_ok n = true) (parse_node f) /\
  post (fun n => node_ok n = true) (parse_tuple_variant f) /\
  (forall items, forallb node_ok items = true ->
     post (fun r => forallb node_ok r = true) (tuple_items f items)) /\
  post (fun n => node_ok n = true) (parse_struct_variant f) /\
  post (fun r => forallb kv_ok r = true) (parse_key_value_pairs f) /\
  (forall kvps, forallb kv_ok kvps = true ->
     post (fun r => forallb kv_ok r = true) (key_value_items f kvps)) /\
  post (fun kv => kv_ok kv = true) (key_value_item f) /\
  post (fun n => node_ok n = true) (parse_object f) /\
  post (fun n => node_ok n = true) (parse_list f) /\
  (forall lt items nvps, forallb node_ok items = true -> forallb pair_ok nvps = true ->
     post (fun r => forallb node_ok (snd (fst r)) = true /\ forallb pair_ok (snd r) = true)
       (list_items f lt items nvps)) /\
  (forall lt items nvps, forallb node_ok items = true -> forallb pair_ok nvps = true ->
     post (fun r => forallb node_ok (snd (fst r)) = true /\ forallb pair_ok (snd r) = true)
       (list_item f lt items nvps)) /\
  post (fun n => node_ok n = true) (parse_tuple f).

(** * Properties *)

Local Arguments Z.ltb : simpl never.
Local Arguments Z.leb : simpl never.
Local Arguments fmt_num : simpl never.
Local Arguments Z.modulo : simpl never.

(** ** The monad *)

Lemma bind_Done {A B} (m : PM A) (k : A -> PM B) (st st' : PState) (a : A) :
  m st = Done a st' -> bind m k st = k a st'.
Proof. intros H; unfold bind; rewrite H; reflexivity. Qed.

Lemma bind_Fail {A B} (m : PM A) (k : A -> PM B) (st st' : PState) (e : AsonError) :
  m st = Fail e st' -> bind m k st = Fail e st'.
Proof. intros H; unfold bind; rewrite H; reflexivity. Qed.

Lemma bind_inv {A B} (m : PM A) (k : A -> PM B) (st st' : PState) (b : B) :
  bind m k st = Done b st' -> exists a st1, m st = Done a st1 /\ k a st1 = Done b st'.
Proof. unfold bind; destruct (m st); intros H; try discriminate; eauto. Qed.

Lemma bind_ret {A B} (a : A) (k : A -> PM B) (st : PState) : bind (ret a) k st = k a st.
Proof. reflexivity. Qed.

Lemma ret_inv {A} (a b : A) (st st' : PState) : ret a st = Done b st' -> a = b /\ st = st'.
Proof. unfold ret; intros H; injection H; auto. Qed.

Tactic Notation "invb" hyp(H) "as" ident(a) ident(s) ident(Hm) :=
  apply bind_inv in H; destruct H as (a & s & Hm & H).

Ltac inv_bind H :=
  let a := fresh "a" in let s := fresh "s" in let H1 := fresh "Hm" in
  apply bind_inv in H; destruct H as (a & s & H1 & H).

Lemma post_elim {A} (Q : A -> Prop) (m : PM A) st a st' :
  post Q m -> m st = Done a st' -> Q a.
Proof. intros [H]; apply H. Qed.

Lemma post_bind {A B} (Q1 : A -> Prop) (Q : B -> Prop) (m : PM A) (k : A -> PM B) :
  post Q1 m -> (forall a, Q1 a -> post Q (k a)) -> post Q (bind m k).
Proof.
  intros Hm Hk; constructor; intros st b st' H. apply bind_inv in H as (a & s1 & H1 & H2).
  eapply post_elim; [apply Hk; eapply post_elim; eauto|eauto].
Qed.

Lemma post_true {A} (m : PM A) : post (fun _ => True) m.
Proof. constructor; intros st a st' _; exact I. Qed.

Lemma post_ret {A} (Q : A -> Prop) (a : A) : Q a -> post Q (ret a).
Proof. intros Ha; constructor; intros st b st' H; apply ret_inv in H as [<- _]; exact Ha. Qed.

Lemma post_fail {A} (Q : A -> Prop) e : post Q (fail e).
Proof. constructor; intros st a st' H; discriminate H. Qed.

Lemma post_panic {A} (Q : A -> Prop) : post Q panic.
Proof. constructor; intros st a st' H; discriminate H. Qed.

Lemma post_no_fuel {A} (Q : A -> Prop) : post Q no_fuel.
Proof. constructor; intros st a st' H; discriminate H. Qed.

(** ** The normalizer *)

Lemma consume_newlines_head (s : list item) :
  head_token (snd (consume_newlines s)) <> Some Token.NewLine.
Proof.
  induction s as [|[[t r]|e] rest IH]; simpl; try discriminate.
  destruct t; simpl; try discriminate.
  destruct (consume_newlines rest) as [last rest']; exact IH.
Qed.

Lemma normalize_plus_number (r : Location) (rest s1 : list item) (tw : TokenWithRange) :
  normalize_plus r rest = Some (Ok tw, s1) -> exists n, token tw = Token.Number n.
Proof.
  unfold normalize_plus; intros H.
  destruct rest as [|[[t r0]|e] rest]; try discriminate.
  destruct t; try discriminate.
  destruct n; repeat match type of H with context [if ?b then _ else _] => destruct b end;
    try discriminate; injection H; intros; subst; simpl; eauto.
Qed.

Lemma normalize_minus_number (r : Location) (rest after s1 : list item) (tw : TokenWithRange) :
  normalize_minus r rest after = Some (Ok tw, s1) -> exists n, token tw = Token.Number n.
Proof.
  unfold normalize_minus; intros H.
  destruct rest as [|[[t r0]|e] rest]; try discriminate.
  destruct t; try discriminate.
  destruct n; repeat match type of H with context [match ?b with _ => _ end] => destruct b end;
    try discriminate; injection H; intros; subst; simpl; eauto.
Qed.

Lemma normalize_other_token (res : item) (t : Token.t) (r : Location) (rest s1 : list item)
  (tw : TokenWithRange) :
  normalize_other res t r rest = Some (Ok tw, s1) -> res = Ok tw.
Proof.
  unfold normalize_other; intros H.
  destruct t; try (injection H; intros; subst; reflexivity).
  destruct n; repeat match type of H with context [if ?b then _ else _] => destruct b end;
    try discriminate; injection H; intros; subst; reflexivity.
Qed.

(** Which upstream heads can produce an emitted [NewLine] or [Comma]. *)
Lemma normalize_emits_newline (s s1 : list item) (r : Location) :
  normalize s = Some (Ok (mkTWR Token.NewLine r), s1) ->
  head_token s = Some Token.NewLine /\
  head_token s1 <> Some Token.NewLine /\ head_token s1 <> Some Token.Comma.
Proof.
  intros H.
  destruct s as [|[[t r0]|e] rest]; simpl in H; try discriminate.
  destruct t; simpl.
  all: try (apply normalize_other_token in H; discriminate).
  all: try (apply normalize_plus_number in H; destruct H; discriminate).
  all: try (apply normalize_minus_number in H; destruct H; discriminate).
  all: try (unfold normalize_comma in H; destruct (consume_newlines rest); discriminate).
  unfold normalize_newline in H.
    pose proof (consume_newlines_head rest) as Hh.
    destruct (consume_newlines rest) as [last rest1]; simpl in Hh.
    destruct rest1 as [|[[t1 r1]|e1] rest2]; simpl in *;
      try (injection H; intros; subst; simpl; repeat split; discriminate).
    destruct t1; try (injection H; intros; subst; simpl; repeat split; try discriminate; assumption).
    destruct (consume_newlines rest2); discriminate.
Qed.

Lemma normalize_emits_comma (s s1 : list item) (r : Location) :
  normalize s = Some (Ok (mkTWR Token.Comma r), s1) ->
  (head_token s = Some Token.NewLine \/ head_token s = Some Token.Comma) /\
  head_token s1 <> Some Token.NewLine.
Proof.
  intros H.
  destruct s as [|[[t r0]|e] rest]; simpl in H; try discriminate.
  destruct t; simpl.
  all: try (apply normalize_other_token in H; discriminate).
  all: try (apply normalize_plus_number in H; destruct H; discriminate).
  all: try (apply normalize_minus_number in H; destruct H; discriminate).
  - unfold normalize_comma in H.
    pose proof (consume_newlines_head rest) as Hh.
    destruct (consume_newlines rest) as [last rest1].
    injection H; intros; subst; auto.
  - unfold normalize_newline in H.
    pose proof (consume_newlines_head rest) as Hh.
    destruct (consume_newlines rest) as [last rest1]; simpl in Hh.
    destruct rest1 as [|[[t1 r1]|e1] rest2]; simpl in *; try discriminate.
    destruct t1; try discriminate.
    pose proof (consume_newlines_head rest2) as Hh2.
    destruct (consume_newlines rest2) as [l3 rest3].
    injection H; intros; subst; auto.
Qed.

Lemma trim_not_newline (s s' : list item) (tw : TokenWithRange) :
  normalize s = Some (Ok tw, s') -> token tw <> Token.NewLine -> trim s = Some (Ok tw, s').
Proof.
  intros H Hn; unfold trim; rewrite H; destruct tw as [[] r]; try reflexivity.
  simpl in Hn; congruence.
Qed.

Lemma trim_err (s s' : list item) (e : AsonError) :
  normalize s = Some (Err e, s') -> trim s = Some (Err e, s').
Proof. intros H; unfold trim; rewrite H; reflexivity. Qed.

Lemma trim_end (s : list item) : normalize s = None -> trim s = None.
Proof. intros H; unfold trim; rewrite H; reflexivity. Qed.

Lemma trim_new_not_newline (s s' : list item) (x : item) :
  normalize s = Some (x, s') ->
  (forall r, x <> Ok (mkTWR Token.NewLine r)) -> trim_new s = s.
Proof.
  intros H Hx; unfold trim_new; rewrite H.
  destruct x as [[[] r]|e]; try reflexivity. exfalso; apply (Hx r); reflexivity.
Qed.

Lemma normalize_bare_signed (w : SignedWidth) (n : Z) (r : Location) (rest : list item) :
  normalize (Ok (mkTWR (Token.Number (signed_token w n)) r) :: rest) =
  if signed_max w <? n
  then Some (Err (MessageWithLocation
                    ("The " ++ signed_name w ++ " number " ++ fmt_num n ++ " is overflowed.") r),
             rest)
  else Some (Ok (mkTWR (Token.Number (signed_token w n)) r), rest).
Proof. destruct w; reflexivity. Qed.

Lemma normalize_minus_signed (w : SignedWidth) (n : Z) (r1 r2 : Location) :
  normalize [Ok (mkTWR Token.Minus r1); Ok (mkTWR (Token.Number (signed_token w n)) r2)] =
  if n <=? 2 ^ (signed_bits w - 1)
  then Some (Ok (mkTWR (Token.Number (signed_token w (as_unsigned (signed_bits w) (- n))))
                       (from_range_pair r1 r2)), [])
  else Some (Err (MessageWithLocation (cannot_convert_message w n) (from_range_pair r1 r2)),
             [Ok (mkTWR (Token.Number (signed_token w n)) r2)]).
Proof.
  destruct w; simpl; unfold normalize_minus, parse_neg;
    destruct (_ <? n); destruct (n <=? _); reflexivity.
Qed.

Lemma as_signed_small (w : SignedWidth) (n : Z) :
  0 <= n <= signed_max w -> as_signed (signed_bits w) n = n.
Proof.
  unfold signed_max, as_signed; intros H.
  replace (n <? 2 ^ (signed_bits w - 1)) with true; [reflexivity|].
  symmetry; apply Z.ltb_lt; lia.
Qed.

Lemma as_signed_negated (w : SignedWidth) (n : Z) :
  0 <= n <= 2 ^ (signed_bits w - 1) ->
  as_signed (signed_bits w) (as_unsigned (signed_bits w) (- n)) = - n.
Proof.
  intros H. unfold as_signed, as_unsigned.
  assert (Hp : 2 ^ signed_bits w = 2 * 2 ^ (signed_bits w - 1)).
  { rewrite <- Z.pow_succ_r by (destruct w; simpl; lia). f_equal; lia. }
  destruct (Z.eq_dec n 0) as [->|Hn0].
  - destruct w; reflexivity.
  - rewrite <- (Z.mod_unique_pos (- n) (2 ^ signed_bits w) (-1) (2 ^ signed_bits w - n))
      by lia.
    replace (2 ^ signed_bits w - n <? 2 ^ (signed_bits w - 1)) with false
      by (symmetry; apply Z.ltb_ge; lia).
    lia.
Qed.

Lemma convert_signed (w : SignedWidth) (v : Z) :
  convert_number_token (signed_token w v) =
  AsonNode.Number (signed_number w (as_signed (signed_bits w) v)).
Proof. destruct w; reflexivity. Qed.

Lemma normalize_nil : normalize [] = None.
Proof. reflexivity. Qed.

Lemma consume_newlines_run (rs : list Location) (tail : list item) :
  match tail with Ok (mkTWR Token.NewLine _) :: _ => False | _ => True end ->
  snd (consume_newlines ((newline_items rs ++ tail)%list)) = tail.
Proof.
  intros Ht. induction rs as [|r rs IH]; simpl.
  - destruct tail as [|[[[] r] | e] tail]; try reflexivity; contradiction.
  - destruct (consume_newlines ((newline_items rs ++ tail)%list)) as [last rest]; exact IH.
Qed.

Lemma clean_newlines (rs : list Location) (tail : list item) :
  clean ((newline_items rs ++ tail)%list) = (newline_items rs ++ clean tail)%list.
Proof. induction rs as [|r rs IH]; simpl; [reflexivity|rewrite IH; reflexivity]. Qed.

(** ** The token stream primitives *)

Lemma token_eqb_true (a b : Token.t) : token_eqb a b = true -> a = b.
Proof. unfold token_eqb; destruct (token_eq_dec a b); congruence. Qed.

Lemma token_eqb_refl (a : Token.t) : token_eqb a a = true.
Proof. unfold token_eqb; destruct (token_eq_dec a a); congruence. Qed.

Lemma token_eqb_false (a b : Token.t) : a <> b -> token_eqb a b = false.
Proof. unfold token_eqb; destruct (token_eq_dec a b); congruence. Qed.

Lemma peek_item_0 (s : list item) :
  peek_item 0 s = match trim s with Some (x, _) => Some x | None => None end.
Proof. destruct s; reflexivity. Qed.

Lemma next_token_ok (st : PState) (t : Token.t) (r : Location) (s' : list item) :
  trim (upstream st) = Some (Ok (mkTWR t r), s') ->
  next_token st = Done (Some t) (mkPState s' r).
Proof. intros H; unfold next_token; rewrite H; reflexivity. Qed.

Lemma next_token_end (st : PState) : trim (upstream st) = None -> next_token st = Done None st.
Proof. intros H; unfold next_token; rewrite H; reflexivity. Qed.

Lemma peek_token_ok (st : PState) (t : Token.t) (r : Location) (s' : list item) :
  trim (upstream st) = Some (Ok (mkTWR t r), s') -> peek_token 0 st = Done (Some t) st.
Proof. intros H; unfold peek_token; rewrite peek_item_0, H; reflexivity. Qed.

Lemma consume_token_ok (st : PState) (t : Token.t) (desc : string) (r : Location)
  (s' : list item) :
  trim (upstream st) = Some (Ok (mkTWR t r), s') ->
  consume_token t desc st = Done tt (mkPState s' r).
Proof.
  intros H. unfold consume_token.
  rewrite (bind_Done _ _ _ _ _ (next_token_ok _ _ _ _ H)).
  rewrite token_eqb_refl. reflexivity.
Qed.

Lemma expect_colon_lookahead (st st' : PState) (c : option bool) :
  expect_token_ignore_newline 0 Token.Colon st = Done c st' ->
  st' = st /\
  (c <> None <->
   peek_token 0 st = Done (Some Token.Colon) st \/
   (peek_token 0 st = Done (Some Token.NewLine) st /\
    peek_token 1 st = Done (Some Token.Colon) st)).
Proof.
  unfold expect_token_ignore_newline, expect_token, bind, ret, peek_token. intros H.
  destruct (peek_item 0 (upstream st)) as [[tw|e]|] eqn:E0; cbv beta iota in H;
    try discriminate H.
  - destruct (token_eqb (token tw) Token.Colon) eqn:Ec; cbv beta iota in H.
    + injection H; intros; subst. apply token_eqb_true in Ec. rewrite Ec.
      split; [reflexivity|]. split; [intros _; left; reflexivity|discriminate].
    + rewrite E0 in H; cbv beta iota in H.
      destruct (token_eqb (token tw) Token.NewLine) eqn:En; cbv beta iota in H.
      * apply token_eqb_true in En. rewrite En.
        destruct (peek_item 1 (upstream st)) as [[tw1|e1]|] eqn:E1; cbv beta iota in H;
          try discriminate H.
        -- destruct (token_eqb (token tw1) Token.Colon) eqn:Ec1; cbv beta iota in H;
             injection H; intros; subst; split; try reflexivity.
           ++ apply token_eqb_true in Ec1. rewrite Ec1.
              split; [intros _; right; split; reflexivity|discriminate].
           ++ split; [congruence|].
              intros [Hc|[_ Hc]]; [discriminate Hc|].
              injection Hc; intros Ht; rewrite Ht, token_eqb_refl in Ec1; discriminate Ec1.
        -- injection H; intros; subst. split; [reflexivity|].
           split; [congruence|]. intros [Hc|[_ Hc]]; discriminate Hc.
      * injection H; intros; subst. split; [reflexivity|].
        split; [congruence|]. intros [Hc|[Hc _]].
        -- injection Hc; intros Ht; rewrite Ht, token_eqb_refl in Ec; discriminate Ec.
        -- injection Hc; intros Ht; rewrite Ht, token_eqb_refl in En; discriminate En.
  - rewrite E0 in H; cbv beta iota in H.
    injection H; intros; subst. split; [reflexivity|].
    split; [congruence|]. intros [Hc|[Hc _]]; discriminate Hc.
Qed.

Lemma consume_sep_absent (st : PState) (tw : TokenWithRange) :
  peek_item 0 (upstream st) = Some (Ok tw) ->
  token tw <> Token.NewLine -> token tw <> Token.Comma ->
  consume_new_line_or_comma_if_exist st = Done false st.
Proof.
  intros Hp Hn Hc. unfold consume_new_line_or_comma_if_exist, bind, peek_token.
  rewrite Hp. destruct tw as [t r]; simpl in *.
  destruct t; try reflexivity; congruence.
Qed.

Lemma consume_token_mismatch (expected : Token.t) (desc : string) (st : PState)
  (tw : TokenWithRange) :
  peek_item 0 (upstream st) = Some (Ok tw) -> token tw <> expected ->
  outcome_error (consume_token expected desc st) =
  Some (MessageWithLocation ("Expect token: " ++ desc ++ ".")
          (get_position_by_range_start (range tw))).
Proof.
  intros Hp Hne. rewrite peek_item_0 in Hp.
  unfold consume_token, next_token, bind.
  destruct (trim (upstream st)) as [[x s']|]; [|discriminate].
  injection Hp; intros ->. destruct tw as [t r]; simpl in *.
  rewrite (token_eqb_false _ _ Hne). reflexivity.
Qed.

(** ** The parser *)

Lemma parse_node_number (f : nat) (st : PState) (tw : TokenWithRange) (s' : list item)
  (num : NumberToken.t) :
  trim (upstream st) = Some (Ok tw, s') -> token tw = Token.Number num ->
  parse_node (S f) st = Done (convert_number_token num) (mkPState s' (range tw)).
Proof.
  intros Ht Hn. destruct tw as [t r]; simpl in Hn; subst t.
  simpl. unfold peek_token, next_token, bind, ret. simpl. rewrite Ht. simpl. rewrite Ht. reflexivity.
Qed.


Lemma parse_fuel_S (ts : list item) : exists f, parse_fuel ts = S f.
Proof. exists (4 * List.length ts + 3)%nat; unfold parse_fuel; lia. Qed.

Lemma parse_node_err (f : nat) (st : PState) (e : AsonError) (s' : list item) :
  trim (upstream st) = Some (Err e, s') -> parse_node (S f) st = Fail e st.
Proof. intros Ht. simpl. unfold peek_token, bind. simpl. rewrite Ht. reflexivity. Qed.

(** A document whose normalized stream is one number token parses to that
    number. *)
Lemma parse_from_one_number (ts s' : list item) (tw : TokenWithRange) (num : NumberToken.t) :
  normalize (clean ts) = Some (Ok tw, s') -> normalize s' = None ->
  token tw = Token.Number num ->
  exists st, parse_from ts = Done (convert_number_token num) st.
Proof.
  intros H1 H2 Hn.
  assert (Hnl : token tw <> Token.NewLine) by (rewrite Hn; discriminate).
  unfold parse_from, init_state.
  rewrite (trim_new_not_newline _ _ _ H1)
    by (intros r E; injection E; intros; subst; simpl in Hnl; congruence).
  destruct (parse_fuel_S ts) as [f ->].
  erewrite bind_Done
    by (apply parse_node_number with (tw := tw); [simpl; apply trim_not_newline; eauto | exact Hn]).
  unfold next_token, bind, ret; simpl. rewrite (trim_end _ H2). eauto.
Qed.

(** A document whose normalized stream starts with an error fails with it. *)
Lemma parse_from_first_error (ts s' : list item) (e : AsonError) :
  normalize (clean ts) = Some (Err e, s') -> outcome_error (parse_from ts) = Some e.
Proof.
  intros H1.
  unfold parse_from, init_state.
  rewrite (trim_new_not_newline _ _ _ H1) by discriminate.
  destruct (parse_fuel_S ts) as [f ->].
  erewrite bind_Fail by (apply parse_node_err with (s' := s'); simpl; apply trim_err; eauto).
  reflexivity.
Qed.


Lemma length_pos_fuel (ts : list item) : exists f, parse_fuel ts = S (S (S f)).
Proof. exists (4 * List.length ts + 1)%nat; unfold parse_fuel; lia. Qed.

Lemma parse_node_bracket (f : nat) (st : PState) (r : Location) (s' : list item) :
  trim (upstream st) = Some (Ok (mkTWR Token.LeftBracket r), s') ->
  parse_node (S f) st = parse_list f st.
Proof.
  intros H. simpl. rewrite (bind_Done _ _ _ _ _ (peek_token_ok _ _ _ _ H)). reflexivity.
Qed.

Lemma list_items_close (f : nat) lt items nvps (st : PState) (r : Location) (s' : list item) :
  trim (upstream st) = Some (Ok (mkTWR Token.RightBracket r), s') ->
  list_items (S f) lt items nvps st = Done (lt, items, nvps) st.
Proof.
  intros H. simpl. rewrite (bind_Done _ _ _ _ _ (peek_token_ok _ _ _ _ H)). reflexivity.
Qed.

Lemma list_item_keep (f : nat) (lt : ListType) items nvps st r st' :
  lt <> Unknown -> list_item f lt items nvps st = Done r st' -> list_shape lt items nvps r.
Proof.
  intros Hlt H. destruct f as [|g]; [discriminate|].
  simpl in H. inv_bind H.
  destruct lt; [congruence| |].
  - simpl in H. rewrite bind_ret in H. simpl in H.
    apply ret_inv in H as [<- _].
    repeat split; simpl; try discriminate; eauto.
  - simpl in H. rewrite bind_ret in H. simpl in H.
    inv_bind H. inv_bind H. inv_bind H. inv_bind H.
    apply ret_inv in H as [<- _].
    repeat split; simpl; try discriminate; eauto.
Qed.

Lemma list_shape_trans lt items nvps r1 r :
  list_shape lt items nvps r1 ->
  list_shape lt (snd (fst r1)) (snd r1) r -> list_shape lt items nvps r.
Proof.
  destruct r1 as [[lt1 i1] n1]; unfold list_shape; simpl.
  intros (E1 & L1 & M1) (E2 & L2 & M2). split; [exact E2|split].
  - intros Hl. destruct (L1 Hl) as [-> [m1 ->]]. destruct (L2 Hl) as [-> [m2 ->]].
    split; [reflexivity|]. exists (m1 ++ m2)%list. symmetry; apply app_assoc.
  - intros Hl. destruct (M1 Hl) as [-> [m1 ->]]. destruct (M2 Hl) as [-> [m2 ->]].
    split; [reflexivity|]. exists (m1 ++ m2)%list. symmetry; apply app_assoc.
Qed.

Lemma list_shape_refl lt items nvps : list_shape lt items nvps (lt, items, nvps).
Proof.
  unfold list_shape; simpl; repeat split; try reflexivity;
    exists []; symmetry; apply app_nil_r.
Qed.

Lemma list_items_keep (f : nat) : forall lt items nvps st r st',
  lt <> Unknown -> list_items f lt items nvps st = Done r st' -> list_shape lt items nvps r.
Proof.
  induction f as [|g IH]; intros lt items nvps st r st' Hlt H; [discriminate|].
  simpl in H. inv_bind H.
  destruct a as [t|].
  2: { apply ret_inv in H as [<- _]; apply list_shape_refl. }
  destruct t;
    try (apply ret_inv in H as [<- _]; apply list_shape_refl);
    (inv_bind H; destruct a as [[lt1 i1] n1];
     pose proof (list_item_keep _ _ _ _ _ _ _ Hlt Hm0) as Hs;
     assert (lt1 = lt) by apply Hs; subst lt1;
     inv_bind H; destruct a;
     [ apply (list_shape_trans _ _ _ (lt, i1, n1)); [exact Hs|eapply IH; eauto]
     | apply ret_inv in H as [<- _]; exact Hs ]).
Qed.

Lemma list_items_first (f : nat) (st st' : PState) lt items nvps (t : Token.t) :
  peek_token 0 st = Done (Some t) st -> t <> Token.RightBracket ->
  list_items (S (S f)) Unknown [] [] st = Done (lt, items, nvps) st' ->
  exists item st1 c,
    parse_node f st = Done item st1 /\
    expect_token_ignore_newline 0 Token.Colon st1 = Done c st1 /\
    (c = None -> lt = List /\ nvps = [] /\ exists more, items = item :: more) /\
    (c <> None -> lt = Map /\ items = [] /\ exists v more, nvps = (item, v) :: more).
Proof.
  intros Hp Ht H.
  remember (S f) as g eqn:Eg.
  simpl in H. invb H as t0 s0 Hpk. rewrite Hp in Hpk. injection Hpk; intros <- <-.
  destruct t; try congruence;
  (invb H as r1 s1 Hitem; destruct r1 as [[lt1 i1] n1]; subst g;
   simpl in Hitem; invb Hitem as item s2 Hnode;
   invb Hitem as lt' s3 Hdec; invb Hdec as cc s4 Hexp;
   pose proof (expect_colon_lookahead _ _ _ Hexp) as [-> _];
   apply ret_inv in Hdec as [<- <-];
   exists item, s2, cc; split; [exact Hnode|]; split; [exact Hexp|];
   destruct cc as [bc|];
   [ simpl in Hitem; invb Hitem as u1 s5 Hc1; invb Hitem as u2 s6 Hc2;
     invb Hitem as u3 s7 Hc3; invb Hitem as vv s8 Hv;
     apply ret_inv in Hitem as [E _]; injection E; intros <- <- <-;
     assert (Hs : list_shape Map [] [(item, vv)] (lt, items, nvps))
       by (invb H as found s9 Hsep; destruct found;
           [eapply list_items_keep; [discriminate|eauto]
           |apply ret_inv in H as [<- _]; apply list_shape_refl]);
     destruct Hs as (E1 & _ & Hm');
     destruct (Hm' eq_refl) as (E2 & more & E3); simpl in E1, E2, E3;
     split; [congruence|]; intros _; split; [exact E1|]; split; [exact E2|];
     exists vv, more; exact E3
   | simpl in Hitem; apply ret_inv in Hitem as [E _]; injection E; intros <- <- <-;
     assert (Hs : list_shape List [item] [] (lt, items, nvps))
       by (invb H as found s9 Hsep; destruct found;
           [eapply list_items_keep; [discriminate|eauto]
           |apply ret_inv in H as [<- _]; apply list_shape_refl]);
     destruct Hs as (E1 & Hl & _);
     destruct (Hl eq_refl) as (E2 & more & E3); simpl in E1, E2, E3;
     split; [|congruence]; intros _; split; [exact E1|]; split; [exact E2|];
     exists more; exact E3 ]).
Qed.

Lemma parse_list_result (f : nat) (st st' : PState) (node : AsonNode.t) :
  parse_list (S f) st = Done node st' ->
  exists st0 lt items nvps st1,
    list_items f Unknown [] [] st0 = Done (lt, items, nvps) st1 /\
    node = if list_type_eqb lt List then AsonNode.List items else AsonNode.Map nvps.
Proof.
  intros H. simpl in H.
  invb H as u1 s1 H1. invb H as u2 s2 H2. invb H as r s3 H3.
  destruct r as [[lt items] nvps]. invb H as u4 s4 H4.
  exists s2, lt, items, nvps, s3. split; [exact H3|].
  destruct (list_type_eqb lt List); apply ret_inv in H as [<- _]; reflexivity.
Qed.

Ltac use_ih :=
  first [ eassumption
        | match goal with H : forall _ : _, _ |- post _ _ => eapply H; try eassumption end ].

Ltac hstep :=
  match goal with
  | |- post _ (bind _ _) => eapply post_bind; [use_ih|intros ? ?]
  | |- post _ (bind _ _) => eapply post_bind; [apply post_true|intros ? _]
  | |- post _ (ret _) => apply post_ret
  | |- post _ (fail _) => apply post_fail
  | |- post _ panic => apply post_panic
  | |- post _ no_fuel => apply post_no_fuel
  | |- post _ (match ?x with _ => _ end) => destruct x
  | |- post _ (if ?b then _ else _) => destruct b
  | |- post _ _ => use_ih
  end.

Ltac close_ok :=
  simpl in *; repeat rewrite forallb_app; simpl;
  repeat match goal with H : _ && _ = true |- _ => apply andb_prop in H; destruct H end;
  repeat match goal with H : _ /\ _ |- _ => destruct H end;
  repeat match goal with |- _ /\ _ => split end;
  unfold pair_ok in *; simpl;
  repeat (apply andb_true_intro; split);
  try assumption; try reflexivity.

Lemma parser_ok_all (f : nat) : parser_ok f.
Proof.
  induction f as [|g IH]; unfold parser_ok in *.
  - repeat match goal with |- _ /\ _ => split end; intros; apply post_no_fuel.
  - destruct IH as (Inode & Itv & Iti & Isv & Ikvp & Ikvi & Ikv & Iobj & Ilist & Ilis & Ili
                    & Itup).
    repeat match goal with |- _ /\ _ => split end.
    all: try intros; simpl;
      repeat (hstep; simpl); simpl in *.
    all: close_ok.
Qed.

Lemma parse_from_node_ok (ts : list item) (node : AsonNode.t) (st : PState) :
  parse_from ts = Done node st -> node_ok node = true.
Proof.
  intros H. unfold parse_from in H.
  match type of H with
  | ?m ?s = Done _ _ =>
      assert (Hp : post (fun n => node_ok n = true) m);
      [|destruct Hp as [Hp]; exact (Hp _ _ _ H)]
  end.
  eapply post_bind; [apply (parser_ok_all (parse_fuel ts))|intros root Hroot].
  repeat (hstep; simpl). exact Hroot.
Qed.

(** * The claims *)

(** ** C1 *)

(** C1 (corrected): a signed literal of width [w] whose lexed magnitude is
    [n] (0 <= n < 2^bits) parses, alone in the document, iff [n] is at most
    the width's maximum, to that number, and fails otherwise with the
    overflow error at the literal's range.  Preceded by a minus sign it
    parses iff [-n] is in [[MIN, 0]] (the bound 0 included: "-0" parses),
    the normalizer emitting the two's-complement bit pattern of [-n] with the
    joined range and the parser the number [-n]; otherwise it fails with the
    cannot-convert-to-negative error at the joined range. *)
Theorem signed_literal_range (w : SignedWidth) (n : Z) (r r1 r2 : Location) :
  0 <= n < 2 ^ signed_bits w ->
  let bare := [Ok (mkTWR (Token.Number (signed_token w n)) r)] in
  let negated := Ok (mkTWR Token.Minus r1) :: [Ok (mkTWR (Token.Number (signed_token w n)) r2)] in
  (succeeds (parse_from bare) = true <-> 0 <= n <= signed_max w) /\
  (n <= signed_max w ->
     exists st, parse_from bare = Done (AsonNode.Number (signed_number w n)) st) /\
  (signed_max w < n ->
     outcome_error (parse_from bare) =
     Some (MessageWithLocation
             ("The " ++ signed_name w ++ " number " ++ fmt_num n ++ " is overflowed.") r)) /\
  (succeeds (parse_from negated) = true <-> signed_min w <= - n <= 0) /\
  (signed_min w <= - n ->
     normalize negated =
     Some (Ok (mkTWR (Token.Number (signed_token w ((- n) mod 2 ^ signed_bits w)))
                     (from_range_pair r1 r2)), []) /\
     exists st, parse_from negated = Done (AsonNode.Number (signed_number w (- n))) st) /\
  (- n < signed_min w ->
     outcome_error (parse_from negated) =
     Some (MessageWithLocation (cannot_convert_message w n) (from_range_pair r1 r2))).
Proof.
  intros Hn bare negated.
  assert (Hbare : normalize (clean bare) = normalize bare) by (destruct w; reflexivity).
  assert (Hneg : normalize (clean negated) = normalize negated) by (destruct w; reflexivity).
  assert (Hok : n <= signed_max w ->
     exists st, parse_from bare = Done (AsonNode.Number (signed_number w n)) st).
  { intros Hle.
    replace (AsonNode.Number (signed_number w n))
      with (convert_number_token (signed_token w n))
      by (rewrite convert_signed, as_signed_small by lia; reflexivity).
    apply parse_from_one_number with
      (s' := []) (tw := mkTWR (Token.Number (signed_token w n)) r); [|reflexivity|reflexivity].
    rewrite Hbare; unfold bare; rewrite normalize_bare_signed.
    replace (signed_max w <? n) with false by (symmetry; apply Z.ltb_ge; lia). reflexivity. }
  assert (Hbad : signed_max w < n ->
     outcome_error (parse_from bare) =
     Some (MessageWithLocation
             ("The " ++ signed_name w ++ " number " ++ fmt_num n ++ " is overflowed.") r)).
  { intros Hlt. eapply parse_from_first_error.
    rewrite Hbare; unfold bare; rewrite normalize_bare_signed.
    replace (signed_max w <? n) with true by (symmetry; apply Z.ltb_lt; lia). reflexivity. }
  assert (Hnorm : signed_min w <= - n ->
     normalize negated =
     Some (Ok (mkTWR (Token.Number (signed_token w ((- n) mod 2 ^ signed_bits w)))
                     (from_range_pair r1 r2)), [])).
  { intros Hle. unfold negated; rewrite normalize_minus_signed.
    unfold signed_min in Hle.
    replace (n <=? 2 ^ (signed_bits w - 1)) with true by (symmetry; apply Z.leb_le; lia).
    reflexivity. }
  assert (Hnok : signed_min w <= - n ->
     exists st, parse_from negated = Done (AsonNode.Number (signed_number w (- n))) st).
  { intros Hle.
    replace (AsonNode.Number (signed_number w (- n)))
      with (convert_number_token (signed_token w ((- n) mod 2 ^ signed_bits w)))
      by (rewrite convert_signed; fold (as_unsigned (signed_bits w) (- n));
          rewrite as_signed_negated by (unfold signed_min in Hle; lia); reflexivity).
    apply parse_from_one_number with (s' := [])
      (tw := mkTWR (Token.Number (signed_token w ((- n) mod 2 ^ signed_bits w)))
                   (from_range_pair r1 r2)); [|reflexivity|reflexivity].
    rewrite Hneg, Hnorm by exact Hle. reflexivity. }
  assert (Hnbad : - n < signed_min w ->
     outcome_error (parse_from negated) =
     Some (MessageWithLocation (cannot_convert_message w n) (from_range_pair r1 r2))).
  { intros Hlt. eapply parse_from_first_error.
    rewrite Hneg; unfold negated; rewrite normalize_minus_signed.
    unfold signed_min in Hlt.
    replace (n <=? 2 ^ (signed_bits w - 1)) with false by (symmetry; apply Z.leb_gt; lia).
    reflexivity. }
  split; [|split; [exact Hok|split; [exact Hbad|split; [|split; [split; auto|exact Hnbad]]]]].
  - split.
    + intros Hs. destruct (Z_le_gt_dec n (signed_max w)) as [Hle|Hgt]; [lia|].
      specialize (Hbad ltac:(lia)).
      destruct (parse_from bare); simpl in Hs, Hbad; discriminate.
    + intros Hle. destruct (Hok ltac:(lia)) as [st ->]. reflexivity.
  - split.
    + intros Hs. destruct (Z_le_gt_dec (signed_min w) (- n)) as [Hle|Hgt]; [lia|].
      specialize (Hnbad ltac:(lia)).
      destruct (parse_from negated); simpl in Hs, Hnbad; discriminate.
    + intros Hle. destruct (Hnok ltac:(lia)) as [st ->]. reflexivity.
Qed.


(** "-128_i8" is accepted, at the bound [Ix::MIN]. *)
Lemma signed_literal_range_witness :
  0 <= 128 < 2 ^ signed_bits W8 /\ succeeds (parse_from lexed_minus_128_i8) = true.
Proof.
  assert (H : 0 <= 128 < 2 ^ signed_bits W8) by (simpl; lia).
  split; [exact H|].
  destruct (signed_literal_range W8 128 (mkLocation 1 0 1 6) (mkLocation 0 0 0 1)
              (mkLocation 1 0 1 6) H) as (_ & _ & _ & [_ Hs] & _).
  apply Hs. unfold signed_min; simpl; lia.
Defined.

(** "-0_i8" parses, to the number 0, although -0 is not in [[MIN, 0)]. *)
Lemma minus_zero_i8_accepted :
  outcome_value (parse_from lexed_minus_0_i8) = Some (AsonNode.Number (Number.I8 0)) /\
  ~ (signed_min W8 <= - 0 < 0).
Proof. split; [vm_compute; reflexivity|unfold signed_min; simpl; lia]. Qed.

(** ** C2 *)

(** C2: a bracketed container is a [List] or a [Map] as its element loop
    decides: with at least one element, the first value is parsed and the
    parser looks for a colon, directly or after one new-line; with one the
    result is a map whose first key is that value, without one a list whose
    first item is that value.  Once decided, every later turn of the loop
    keeps the kind and only adds items (list) or pairs (map). *)
Theorem list_or_map_decided_once :
  (forall f st st' node,
     parse_list (S f) st = Done node st' ->
     exists st0 lt items nvps st1,
       list_items f Unknown [] [] st0 = Done (lt, items, nvps) st1 /\
       node = if list_type_eqb lt List then AsonNode.List items else AsonNode.Map nvps) /\
  (forall f st st' lt items nvps t,
     peek_token 0 st = Done (Some t) st -> t <> Token.RightBracket ->
     list_items (S (S f)) Unknown [] [] st = Done (lt, items, nvps) st' ->
     exists item st1 c,
       parse_node f st = Done item st1 /\
       expect_token_ignore_newline 0 Token.Colon st1 = Done c st1 /\
       (c = None -> lt = List /\ nvps = [] /\ exists more, items = item :: more) /\
       (c <> None -> lt = Map /\ items = [] /\ exists v more, nvps = (item, v) :: more)) /\
  (forall st st' c,
     expect_token_ignore_newline 0 Token.Colon st = Done c st' ->
     st' = st /\
     (c <> None <->
      peek_token 0 st = Done (Some Token.Colon) st \/
      (peek_token 0 st = Done (Some Token.NewLine) st /\
       peek_token 1 st = Done (Some Token.Colon) st))) /\
  (forall f lt items nvps st r st',
     lt <> Unknown -> list_items f lt items nvps st = Done r st' ->
     list_shape lt items nvps r).
Proof.
  split; [|split; [|split]].
  - exact parse_list_result.
  - exact list_items_first.
  - exact expect_colon_lookahead.
  - exact list_items_keep.
Qed.

(** "[1: 2, 3: 4]": the container is decided a map. *)
Lemma list_or_map_decided_once_witness :
  exists st0 lt items nvps st1,
    list_items 29%nat Unknown [] [] st0 = Done (lt, items, nvps) st1 /\
    AsonNode.Map [(AsonNode.Number (Number.I32 1), AsonNode.Number (Number.I32 2));
                  (AsonNode.Number (Number.I32 3), AsonNode.Number (Number.I32 4))] =
    if list_type_eqb lt List then AsonNode.List items else AsonNode.Map nvps.
Proof.
  apply (proj1 list_or_map_decided_once 29%nat (init_state lexed_map_1_2_3_4)
           (mkPState [] (mkLocation 11 0 11 1))).
  vm_compute. reflexivity.
Defined.

(** ** C3 *)

(** C3: of two consecutive tokens the normalizer emits, not both are
    new-lines, and no comma is next to a new-line. *)
Theorem normalize_separators_not_adjacent (s s1 s2 : list item) (a b : TokenWithRange) :
  normalize s = Some (Ok a, s1) ->
  normalize s1 = Some (Ok b, s2) ->
  ~ (token a = Token.NewLine /\ token b = Token.NewLine) /\
  ~ (token a = Token.Comma /\ token b = Token.NewLine) /\
  ~ (token a = Token.NewLine /\ token b = Token.Comma).
Proof.
  intros Ha Hb.
  destruct a as [ta ra], b as [tb rb]; simpl.
  repeat split; intros [E1 E2]; subst.
  - apply normalize_emits_newline in Ha; apply normalize_emits_newline in Hb; tauto.
  - apply normalize_emits_comma in Ha; apply normalize_emits_newline in Hb; tauto.
  - apply normalize_emits_newline in Ha; apply normalize_emits_comma in Hb.
    destruct Ha as (_ & H1 & H2); destruct Hb as [[H|H] _]; contradiction.
Qed.

(** Two newlines followed by a number: the first item is one newline. *)
Lemma normalize_separators_not_adjacent_witness :
  let a := mkTWR Token.NewLine (mkLocation 0 0 0 2) in
  let b := mkTWR (Token.Number (NumberToken.I32 1)) (mkLocation 2 0 2 1) in
  ~ (token a = Token.NewLine /\ token b = Token.NewLine) /\
  ~ (token a = Token.Comma /\ token b = Token.NewLine) /\
  ~ (token a = Token.NewLine /\ token b = Token.Comma).
Proof.
  intros a b.
  apply (normalize_separators_not_adjacent
           [tok_at Token.NewLine 0 1; tok_at Token.NewLine 1 1;
            tok_at (Token.Number (NumberToken.I32 1)) 2 1]
           [tok_at (Token.Number (NumberToken.I32 1)) 2 1] []);
    reflexivity.
Defined.

(** ** C4 *)

(** C4: when the root node parses and a token is left, both [parse_from]
    and the decoder's [from_char_stream] fail with "Document has more than
    one node." at the start of that token; "true false" fails so at
    column 5. *)
Theorem more_than_one_node :
  (forall ts root st1 tw,
     parse_node (parse_fuel ts) (init_state ts) = Done root st1 ->
     peek_item 0 (upstream st1) = Some (Ok tw) ->
     outcome_error (parse_from ts) =
     Some (MessageWithLocation "Document has more than one node."
             (get_position_by_range_start (range tw)))) /\
  (forall T (deserialize : PM T) ts v st1 tw,
     deserialize (init_state ts) = Done v st1 ->
     peek_item 0 (upstream st1) = Some (Ok tw) ->
     outcome_error (from_char_stream deserialize ts) =
     Some (MessageWithLocation "Document has more than one node."
             (get_position_by_range_start (range tw)))) /\
  outcome_error (parse_from lexed_true_false) =
  Some (MessageWithLocation "Document has more than one node." (mkLocation 5 0 5 0)) /\
  outcome_error (from_char_stream deserialize_bool lexed_true_false) =
  Some (MessageWithLocation "Document has more than one node." (mkLocation 5 0 5 0)).
Proof.
  split; [|split; [|split]].
  - intros ts root st1 tw H Hp. unfold parse_from.
    rewrite (bind_Done _ _ _ _ _ H).
    rewrite peek_item_0 in Hp.
    unfold next_token, bind.
    destruct (trim (upstream st1)) as [[x s']|]; [|discriminate].
    injection Hp; intros ->. destruct tw as [t r]. reflexivity.
  - intros T deserialize ts v st1 tw H Hp. unfold from_char_stream.
    rewrite (bind_Done _ _ _ _ _ H).
    unfold peek_range, bind. rewrite Hp. reflexivity.
  - vm_compute. reflexivity.
  - vm_compute. reflexivity.
Qed.

(** "true false": the root [true] leaves the token [false]. *)
Lemma more_than_one_node_witness :
  outcome_error (parse_from lexed_true_false) =
  Some (MessageWithLocation "Document has more than one node."
          (get_position_by_range_start (mkLocation 5 0 5 5))).
Proof.
  apply (proj1 more_than_one_node lexed_true_false (AsonNode.Boolean true)
           (mkPState [tok_at (Token.Boolean false) 5 5] (mkLocation 0 0 0 4))
           (mkTWR (Token.Boolean false) (mkLocation 5 0 5 5)));
    vm_compute; reflexivity.
Defined.

(** ** C5 *)

(** C5 (corrected): in an object, a list or map, and a tuple (or a
    variant's tuple payload), when an element is followed by a token that is
    neither a new-line, a comma nor the closing token, the element loop ends
    there and the closing-token check fails with "Expect token: right
    brace." (bracket, parenthese) at the start of that next token; so
    {id:123 name:"foo"} fails with "Expect token: right brace." at
    column 8. *)
Theorem missing_separator_reported :
  (forall f st kvps t kvp st1 tw,
     peek_token 0 st = Done (Some t) st -> t <> Token.RightBrace ->
     key_value_item f st = Done kvp st1 ->
     peek_item 0 (upstream st1) = Some (Ok tw) -> no_separator tw Token.RightBrace ->
     key_value_items (S f) kvps st = Done (kvps ++ [kvp])%list st1 /\
     outcome_error ((_ <- key_value_items (S f) kvps ;; consume_right_brace) st) =
     Some (MessageWithLocation "Expect token: right brace."
             (get_position_by_range_start (range tw)))) /\
  (forall f st lt items nvps t r st1 tw,
     peek_token 0 st = Done (Some t) st -> t <> Token.RightBracket ->
     list_item f lt items nvps st = Done r st1 ->
     peek_item 0 (upstream st1) = Some (Ok tw) -> no_separator tw Token.RightBracket ->
     list_items (S f) lt items nvps st = Done r st1 /\
     outcome_error ((_ <- list_items (S f) lt items nvps ;; consume_right_bracket) st) =
     Some (MessageWithLocation "Expect token: right bracket."
             (get_position_by_range_start (range tw)))) /\
  (forall f st items t v st1 tw,
     peek_token 0 st = Done (Some t) st -> t <> Token.RightParen ->
     parse_node f st = Done v st1 ->
     peek_item 0 (upstream st1) = Some (Ok tw) -> no_separator tw Token.RightParen ->
     tuple_items (S f) items st = Done (items ++ [v])%list st1 /\
     outcome_error ((_ <- tuple_items (S f) items ;; consume_right_paren) st) =
     Some (MessageWithLocation "Expect token: right parenthese."
             (get_position_by_range_start (range tw)))) /\
  outcome_error (parse_from lexed_object_missing_separator) =
  Some (MessageWithLocation "Expect token: right brace." (mkLocation 8 0 8 0)).
Proof.
  split; [|split; [|split]].
  - intros f st kvps t kvp st1 tw Hp Ht Hi Hq (Hn & Hc & Hb).
    assert (E : key_value_items (S f) kvps st = Done (kvps ++ [kvp])%list st1).
    { simpl. unfold bind at 1. rewrite Hp.
      destruct t; try congruence;
        (rewrite (bind_Done _ _ _ _ _ Hi);
         rewrite (bind_Done _ _ _ _ _ (consume_sep_absent _ _ Hq Hn Hc)); reflexivity). }
    split; [exact E|]. rewrite (bind_Done _ _ _ _ _ E).
    apply consume_token_mismatch; assumption.
  - intros f st lt items nvps t r st1 tw Hp Ht Hi Hq (Hn & Hc & Hb).
    assert (E : list_items (S f) lt items nvps st = Done r st1).
    { simpl. unfold bind at 1. rewrite Hp. destruct r as [[lt' items'] nvps'].
      destruct t; try congruence;
        (rewrite (bind_Done _ _ _ _ _ Hi);
         rewrite (bind_Done _ _ _ _ _ (consume_sep_absent _ _ Hq Hn Hc)); reflexivity). }
    split; [exact E|]. rewrite (bind_Done _ _ _ _ _ E).
    apply consume_token_mismatch; assumption.
  - intros f st items t v st1 tw Hp Ht Hi Hq (Hn & Hc & Hb).
    assert (E : tuple_items (S f) items st = Done (items ++ [v])%list st1).
    { simpl. unfold bind at 1. rewrite Hp.
      destruct t; try congruence;
        (rewrite (bind_Done _ _ _ _ _ Hi);
         rewrite (bind_Done _ _ _ _ _ (consume_sep_absent _ _ Hq Hn Hc)); reflexivity). }
    split; [exact E|]. rewrite (bind_Done _ _ _ _ _ E).
    apply consume_token_mismatch; assumption.
  - vm_compute. reflexivity.
Qed.

(** "(1 2)": the tuple loop stops after 1, and the 2 is reported. *)
Lemma missing_separator_reported_witness :
  let st := mkPState [tok_at (Token.Number (NumberToken.I32 1)) 1 1;
                      tok_at (Token.Number (NumberToken.I32 2)) 3 1;
                      tok_at Token.RightParen 4 1] (mkLocation 0 0 0 1) in
  tuple_items 6%nat [] st =
  Done [AsonNode.Number (Number.I32 1)]
    (mkPState [tok_at (Token.Number (NumberToken.I32 2)) 3 1; tok_at Token.RightParen 4 1]
       (mkLocation 1 0 1 1)) /\
  outcome_error ((_ <- tuple_items 6%nat [] ;; consume_right_paren) st) =
  Some (MessageWithLocation "Expect token: right parenthese."
          (get_position_by_range_start (mkLocation 3 0 3 1))).
Proof.
  intros st.
  apply (proj1 (proj2 (proj2 missing_separator_reported)) 5%nat st []
           (Token.Number (NumberToken.I32 1)) (AsonNode.Number (Number.I32 1))
           (mkPState [tok_at (Token.Number (NumberToken.I32 2)) 3 1; tok_at Token.RightParen 4 1]
              (mkLocation 1 0 1 1))
           (mkTWR (Token.Number (NumberToken.I32 2)) (mkLocation 3 0 3 1))).
  - reflexivity.
  - discriminate.
  - vm_compute. reflexivity.
  - reflexivity.
  - split; [discriminate|split; discriminate].
Defined.

(** The missing separator of {id:123 name:"foo"} is not reported with the
    decoder's "Expect a comma or new-line." message. *)
Lemma object_example_not_comma_error :
  ~ exists loc, outcome_error (parse_from lexed_object_missing_separator) =
                Some (MessageWithLocation "Expect a comma or new-line." loc).
Proof. vm_compute. intros [loc H]. injection H. intros _ E. discriminate E. Qed.

(** ** C6 *)

(** C6: every node a successful parse returns satisfies [node_ok]: no tuple
    in it is empty and every variant with a tuple payload has at least two
    items (one item is the [PayloadValue] form); "()" fails with "Tuple can
    not be empty." and "Type::Member()" with "The value of tuple style
    variant can not be empty.". *)
Theorem parse_results_ok :
  (forall ts node st, parse_from ts = Done node st -> node_ok node = true) /\
  outcome_error (parse_from lexed_empty_tuple) =
  Some (MessageWithLocation "Tuple can not be empty." (mkLocation 1 0 1 0)) /\
  outcome_error (parse_from lexed_empty_variant_payload) =
  Some (MessageWithLocation "The value of tuple style variant can not be empty."
          (mkLocation 13 0 13 0)).
Proof.
  split; [|split].
  - exact parse_from_node_ok.
  - vm_compute. reflexivity.
  - vm_compute. reflexivity.
Qed.

(** "(1, 2)" parses to a tuple of two numbers. *)
Lemma parse_results_ok_witness :
  node_ok (AsonNode.Tuple [AsonNode.Number (Number.I32 1); AsonNode.Number (Number.I32 2)])
  = true.
Proof.
  apply (proj1 parse_results_ok lexed_pair_tuple _ (mkPState [] (mkLocation 5 0 5 1))).
  vm_compute. reflexivity.
Defined.

(** ** C7 *)

(** C7: a minus sign followed by an unsigned number of any width is the
    error "The minus sign cannot be applied to unsigned numbers." at the
    joined range; "-1_u8" fails so over the bytes [0, 5). *)
Theorem minus_unsigned_rejected :
  (forall (w : UnsignedWidth) (v : Z) (r1 r2 : Location) (rest : list item),
     normalize (Ok (mkTWR Token.Minus r1) ::
                Ok (mkTWR (Token.Number (unsigned_token w v)) r2) :: rest) =
     Some (Err (MessageWithLocation "The minus sign cannot be applied to unsigned numbers."
                  (from_range_pair r1 r2)),
           Ok (mkTWR (Token.Number (unsigned_token w v)) r2) :: rest)) /\
  outcome_error (parse_from lexed_minus_1_u8) =
  Some (MessageWithLocation "The minus sign cannot be applied to unsigned numbers."
          (mkLocation 0 0 0 5)).
Proof.
  split.
  - intros w v r1 r2 rest. destruct w; reflexivity.
  - vm_compute. reflexivity.
Qed.

(** ** C8 *)

(** C8: a plus or minus sign followed by an F32 or F64 number: a NaN is the
    sign's NaN error at the joined range; otherwise the minus sign emits the
    negated float and the plus sign the number unchanged, with the joined
    range. *)
Theorem sign_before_float (r1 r2 : Location) (rest : list item) (v : Z) :
  normalize (Ok (mkTWR Token.Plus r1) :: Ok (mkTWR (Token.Number (NumberToken.F32 v)) r2) :: rest) =
  (if f32_is_nan v
   then Some (Err (MessageWithLocation "The plus sign cannot be applied to NaN."
                     (from_range_pair r1 r2)),
              Ok (mkTWR (Token.Number (NumberToken.F32 v)) r2) :: rest)
   else Some (Ok (mkTWR (Token.Number (NumberToken.F32 v)) (from_range_pair r1 r2)), rest)) /\
  normalize (Ok (mkTWR Token.Plus r1) :: Ok (mkTWR (Token.Number (NumberToken.F64 v)) r2) :: rest) =
  (if f64_is_nan v
   then Some (Err (MessageWithLocation "The plus sign cannot be applied to NaN."
                     (from_range_pair r1 r2)),
              Ok (mkTWR (Token.Number (NumberToken.F64 v)) r2) :: rest)
   else Some (Ok (mkTWR (Token.Number (NumberToken.F64 v)) (from_range_pair r1 r2)), rest)) /\
  normalize (Ok (mkTWR Token.Minus r1) :: Ok (mkTWR (Token.Number (NumberToken.F32 v)) r2) :: rest) =
  (if f32_is_nan v
   then Some (Err (MessageWithLocation "The minus sign cannot be applied to NaN."
                     (from_range_pair r1 r2)),
              Ok (mkTWR (Token.Number (NumberToken.F32 v)) r2) :: rest)
   else Some (Ok (mkTWR (Token.Number (NumberToken.F32 (f32_neg v))) (from_range_pair r1 r2)),
              rest)) /\
  normalize (Ok (mkTWR Token.Minus r1) :: Ok (mkTWR (Token.Number (NumberToken.F64 v)) r2) :: rest) =
  (if f64_is_nan v
   then Some (Err (MessageWithLocation "The minus sign cannot be applied to NaN."
                     (from_range_pair r1 r2)),
              Ok (mkTWR (Token.Number (NumberToken.F64 v)) r2) :: rest)
   else Some (Ok (mkTWR (Token.Number (NumberToken.F64 (f64_neg v))) (from_range_pair r1 r2)),
              rest)).
Proof. repeat split; reflexivity. Qed.

(** ** C9 *)

(** C9 (the decoder's Option): when the variant after the type name Option
    is neither None nor Some and the document ends there, the decoder
    panics (the unwrap of [peek_range(0)]) instead of returning the
    "Invalid member" error; "Option::Foo" as [Option<i32>] panics, while
    "Option::Some(123)" gives [Some 123] and "Option::None" gives [None]. *)
Theorem option_decoding :
  (forall A (inner : PM A) (st : PState) (m : string) (r : Location) (s' : list item),
     trim (upstream st) = Some (Ok (mkTWR (Token.Variant "Option" m) r), s') ->
     m <> "None" -> m <> "Some" -> peek_item 0 s' = None ->
     deserialize_option inner st = Panic) /\
  from_char_stream (deserialize_option deserialize_i32) lexed_option_foo = Panic /\
  outcome_value (from_char_stream (deserialize_option deserialize_i32) lexed_option_some_123)
  = Some (Some 123) /\
  outcome_value (from_char_stream (deserialize_option deserialize_i32) lexed_option_none)
  = Some None.
Proof.
  split; [|split; [|split]].
  - intros A inner st m r s' Ht Hn Hs Hp.
    apply String.eqb_neq in Hn, Hs.
    unfold deserialize_option, next_token, bind. rewrite Ht. simpl.
    rewrite peek_item_0 in Hp. destruct (trim s') as [[x s'']|] eqn:E; [discriminate|].
    rewrite Hn, Hs. unfold ret, peek_range. simpl. rewrite E. reflexivity.
  - vm_compute. reflexivity.
  - vm_compute. reflexivity.
  - vm_compute. reflexivity.
Qed.

(** "Option::Foo" at the end of the document. *)
Lemma option_decoding_witness :
  deserialize_option deserialize_i32
    (mkPState [tok_at (Token.Variant "Option" "Foo") 0 11] (mkLocation 0 0 0 0)) = Panic.
Proof.
  apply (proj1 option_decoding Z deserialize_i32
           (mkPState [tok_at (Token.Variant "Option" "Foo") 0 11] (mkLocation 0 0 0 0))
           "Foo" (mkLocation 0 0 0 11) []).
  - reflexivity.
  - discriminate.
  - discriminate.
  - reflexivity.
Defined.

(** ** C10 *)

(** C10 (corrected): a bracket pair holding nothing or only new-lines
    parses to the empty [Map]; a comma between the brackets, as in "[,]",
    is not an element and fails with "Unexpected token." at column 1. *)
Theorem empty_brackets_map (r1 r2 : Location) (rs : list Location) :
  outcome_value
    (parse_from (Ok (mkTWR Token.LeftBracket r1) ::
                 (newline_items rs ++ [Ok (mkTWR Token.RightBracket r2)])%list)) =
  Some (AsonNode.Map []) /\
  outcome_error (parse_from lexed_comma_in_brackets) =
  Some (MessageWithLocation "Unexpected token." (mkLocation 1 0 1 0)).
Proof.
  split; [|vm_compute; reflexivity].
  set (ts := Ok (mkTWR Token.LeftBracket r1) ::
             (newline_items rs ++ [Ok (mkTWR Token.RightBracket r2)])%list).
  set (inner := (newline_items rs ++ [Ok (mkTWR Token.RightBracket r2)])%list).
  assert (Hc : clean ts = ts).
  { unfold ts, clean; simpl. fold (clean ((newline_items rs ++ [Ok (mkTWR Token.RightBracket r2)])%list)).
    rewrite clean_newlines. reflexivity. }
  assert (Hn0 : normalize ts = Some (Ok (mkTWR Token.LeftBracket r1), inner)) by reflexivity.
  assert (Ht0 : trim ts = Some (Ok (mkTWR Token.LeftBracket r1), inner))
    by (apply trim_not_newline; [exact Hn0|discriminate]).
  assert (Hinit : init_state ts = mkPState ts (new_range 0 0 0 0)).
  { unfold init_state. rewrite Hc. unfold trim_new. rewrite Hn0. reflexivity. }
  (* after '[' and the optional new-line, the state is at ']' *)
  assert (Hafter : exists r, consume_new_line_if_exist (mkPState inner r1) =
                             Done true (mkPState [Ok (mkTWR Token.RightBracket r2)] r) \/
                             (consume_new_line_if_exist (mkPState inner r1) =
                              Done false (mkPState inner r1) /\
                              inner = [Ok (mkTWR Token.RightBracket r2)])).
  { destruct rs as [|r rs].
    - exists r1. right. split; [|reflexivity].
      unfold consume_new_line_if_exist.
      rewrite (bind_Done _ _ _ _ _ (peek_token_ok (mkPState inner r1) Token.RightBracket r2 []
                                      eq_refl)). reflexivity.
    - assert (Hq : snd (consume_newlines ((newline_items rs ++ [Ok (mkTWR Token.RightBracket r2)])%list))
                   = [Ok (mkTWR Token.RightBracket r2)]) by (apply consume_newlines_run; exact I).
      destruct (consume_newlines ((newline_items rs ++ [Ok (mkTWR Token.RightBracket r2)])%list))
        as [last rest] eqn:Ecn.
      simpl in Hq. subst rest.
      set (nl := from_range_pair r (match last with Some l => l | None => r end)).
      assert (Ht : trim inner = Some (Ok (mkTWR Token.NewLine nl),
                                      [Ok (mkTWR Token.RightBracket r2)])).
      { unfold trim. unfold inner. simpl. unfold normalize_newline. rewrite Ecn.
        reflexivity. }
      exists nl. left.
      unfold consume_new_line_if_exist.
      rewrite (bind_Done _ _ _ _ _ (peek_token_ok (mkPState inner r1) _ _ _ Ht)).
      rewrite (bind_Done _ _ _ _ _ (next_token_ok (mkPState inner r1) _ _ _ Ht)).
      reflexivity. }
  destruct (length_pos_fuel ts) as [f Ef].
  unfold parse_from. rewrite Ef, Hinit.
  assert (Hl : parse_list (S (S f)) (mkPState ts (new_range 0 0 0 0)) =
                              Done (AsonNode.Map []) (mkPState [] r2)).
  { cbn [parse_list].
    rewrite (bind_Done _ _ _ _ _ (next_token_ok (mkPState ts (new_range 0 0 0 0)) _ _ _ Ht0)).
    destruct Hafter as [r [Ha | [Ha Hi]]].
    - rewrite (bind_Done _ _ _ _ _ Ha).
      rewrite (bind_Done _ _ _ _ _ (list_items_close _ Unknown [] []
                 (mkPState [Ok (mkTWR Token.RightBracket r2)] r) r2 [] eq_refl)).
      cbv beta iota delta [consume_right_bracket].
      rewrite (bind_Done _ _ _ _ _ (consume_token_ok
                 (mkPState [Ok (mkTWR Token.RightBracket r2)] r) _ _ r2 [] eq_refl)).
      reflexivity.
    - rewrite (bind_Done _ _ _ _ _ Ha). rewrite Hi.
      rewrite (bind_Done _ _ _ _ _ (list_items_close _ Unknown [] []
                 (mkPState [Ok (mkTWR Token.RightBracket r2)] r1) r2 [] eq_refl)).
      cbv beta iota delta [consume_right_bracket].
      rewrite (bind_Done _ _ _ _ _ (consume_token_ok
                 (mkPState [Ok (mkTWR Token.RightBracket r2)] r1) _ _ r2 [] eq_refl)).
      reflexivity. }
  assert (Hnode : parse_node (S (S (S f))) (mkPState ts (new_range 0 0 0 0)) =
                  Done (AsonNode.Map []) (mkPState [] r2)).
  { rewrite (parse_node_bracket _ (mkPState ts (new_range 0 0 0 0)) _ _ Ht0). exact Hl. }
  rewrite (bind_Done _ _ _ _ _ Hnode).
  rewrite (bind_Done _ _ _ _ _ (next_token_end (mkPState [] r2) eq_refl)).
  reflexivity.
Qed.

(** "[,]" holds only a separator and does not parse. *)
Lemma comma_brackets_fail :
  succeeds (parse_from lexed_comma_in_brackets) = false.
Proof. vm_compute. reflexivity. Qed.
